(** * QuickBooks MCP server: the authenticated request/update pipeline

    A shallow embedding of [src/index.ts]: the token store, the OAuth
    session (refresh and the authorization callback), the request executor
    [qbRequest], the field mappers and the four update tools, followed by
    the properties of the specification that concern them.

    JavaScript values are a tree type with objects as finite maps
    ([gmap string jsval]); the asynchronous code of one tool invocation is
    sequential, and is written in a state-and-exception monad over a
    [world] holding the global [tokens], the credentials file and the
    trace of observable events (HTTP calls, console lines, callback
    replies).  The mappers are also written over a store of objects held
    by reference, to state which objects they create and which they leave
    alone. *)

From Stdlib Require Import ZArith String Ascii List.
From stdpp Require Import gmap strings list fin_maps pretty.

Local Open Scope Z_scope.
Local Set Warnings "-register-all".

(** ** JavaScript values *)

(** The values the program handles come from [JSON.parse], from the
    validated tool input and from object literals.  Numbers are modelled
    by integers (the program only tests their type and prints HTTP
    statuses).  An object is a finite map from property names to values;
    a property may hold [undefined] (as in [{ Line1: b.line1 }]). *)
Inductive jsval : Type :=
| JUndef
| JNull
| JBool (b : bool)
| JNum (n : Z)
| JStr (s : string)
| JArr (l : list jsval)
| JObj (m : gmap string jsval).

Abbreviation obj := (gmap string jsval).

(** [if (v)], [!v], [v ? a : b], [v || w]. *)
Definition truthy (v : jsval) : bool :=
  match v with
  | JUndef | JNull => false
  | JBool b => b
  | JNum n => negb (n =? 0)
  | JStr s => negb (String.eqb s "")
  | JArr _ | JObj _ => true
  end.

(** The left operand test of [??]. *)
Definition nullish (v : jsval) : bool :=
  match v with JUndef | JNull => true | _ => false end.

(** [v === undefined]. *)
Definition is_undefined (v : jsval) : bool :=
  match v with JUndef => true | _ => false end.

(** [typeof v === "boolean"], ["string"], ["number"]. *)
Definition typeof_boolean (v : jsval) : bool :=
  match v with JBool _ => true | _ => false end.
Definition typeof_string (v : jsval) : bool :=
  match v with JStr _ => true | _ => false end.
Definition typeof_number (v : jsval) : bool :=
  match v with JNum _ => true | _ => false end.

(** [!v] as a value. *)
Definition js_not (v : jsval) : jsval := JBool (negb (truthy v)).

(** [o.k] on an object: a missing property reads as [undefined]. *)
Definition prop (o : obj) (k : string) : jsval := default JUndef (o !! k).

(** [v?.k], and [v.k] where [v] is known not to be [null] or [undefined].
    The property names the program reads ([access_token], [Id],
    [Customer], [line1], ...) are not properties of strings, arrays,
    numbers or booleans, so such a read gives [undefined] there. *)
Definition get (v : jsval) (k : string) : jsval :=
  match v with JObj m => prop m k | _ => JUndef end.

(** [a ?? b]. *)
Definition coalesce (a b : jsval) : jsval := if nullish a then b else a.

(** The own enumerable properties copied by a spread [{ ...v }]: those of
    an object; the indices of an array or of a string; none otherwise. *)
Definition own_props (v : jsval) : obj :=
  match v with
  | JObj m => m
  | JArr l => list_to_map (imap (fun i x => (pretty i, x)) l)
  | JStr s =>
      list_to_map
        (imap (fun i c => (pretty i, JStr (String c EmptyString)))
              (list_ascii_of_string s))
  | _ => ∅
  end.

(** [{ ...a, ...b }]: the properties of [b] win. *)
Definition spread2 (a b : obj) : obj := b ∪ a.

(** String conversion, as done by a template literal [`${v}`]. *)
Fixpoint js_to_string (v : jsval) : string :=
  match v with
  | JUndef => "undefined"
  | JNull => "null"
  | JBool true => "true"
  | JBool false => "false"
  | JNum n => pretty n
  | JStr s => s
  | JObj _ => "[object Object]"
  | JArr l =>
      let elem (x : jsval) : string :=
        match x with JUndef | JNull => "" | _ => js_to_string x end in
      (fix join (l : list jsval) : string :=
         match l with
         | [] => ""
         | [x] => elem x
         | x :: r => elem x +:+ "," +:+ join r
         end) l
  end.

(** [s.includes(sub)]. *)
Fixpoint includes (s sub : string) : bool :=
  String.prefix sub s ||
  match s with
  | EmptyString => false
  | String _ r => includes r sub
  end.

(** ** Field mappers *)

(** [if (c) qbo.K = v;] *)
Definition assign_if (c : bool) (K : string) (v : jsval) (qbo : obj) : obj :=
  if c then <[K := v]> qbo else qbo.

(** The address literal built for [BillAddr] and [ShipAddr]. *)
Definition address_literal (b : jsval) : jsval :=
  JObj (<["Country" := get b "country"]>
       (<["PostalCode" := get b "postalCode"]>
       (<["CountrySubDivisionCode" := get b "countrySubDivisionCode"]>
       (<["City" := get b "city"]>
       (<["Line2" := get b "line2"]>
       (<["Line1" := get b "line1"]> ∅)))))).

(** [{ K: v }] *)
Definition wrap (K : string) (v : jsval) : jsval := JObj {[ K := v ]}.

(** [mapCustomerInputToQBO(input)], statement by statement. *)
Definition mapCustomerInputToQBO (input : obj) : obj :=
  let qbo : obj := ∅ in
  let qbo := assign_if (truthy (prop input "displayName")) "DisplayName" (prop input "displayName") qbo in
  let qbo := assign_if (truthy (prop input "companyName")) "CompanyName" (prop input "companyName") qbo in
  let qbo := assign_if (truthy (prop input "title")) "Title" (prop input "title") qbo in
  let qbo := assign_if (truthy (prop input "givenName")) "GivenName" (prop input "givenName") qbo in
  let qbo := assign_if (truthy (prop input "middleName")) "MiddleName" (prop input "middleName") qbo in
  let qbo := assign_if (truthy (prop input "familyName")) "FamilyName" (prop input "familyName") qbo in
  let qbo := assign_if (truthy (prop input "suffix")) "Suffix" (prop input "suffix") qbo in
  let qbo := assign_if (typeof_boolean (prop input "taxExempt")) "Taxable" (js_not (prop input "taxExempt")) qbo in
  let qbo := assign_if (truthy (prop input "notes")) "Notes" (prop input "notes") qbo in
  let qbo := assign_if (truthy (prop input "primaryEmail")) "PrimaryEmailAddr" (wrap "Address" (prop input "primaryEmail")) qbo in
  let qbo := assign_if (truthy (prop input "primaryPhone")) "PrimaryPhone" (wrap "FreeFormNumber" (prop input "primaryPhone")) qbo in
  let qbo := assign_if (truthy (prop input "mobilePhone")) "Mobile" (wrap "FreeFormNumber" (prop input "mobilePhone")) qbo in
  let qbo := assign_if (truthy (prop input "fax")) "Fax" (wrap "FreeFormNumber" (prop input "fax")) qbo in
  let qbo := assign_if (truthy (prop input "billAddr")) "BillAddr" (address_literal (prop input "billAddr")) qbo in
  let qbo := assign_if (truthy (prop input "shipAddr")) "ShipAddr" (address_literal (prop input "shipAddr")) qbo in
  qbo.

(** [mapAccountInputToQBO(input)], statement by statement. *)
Definition mapAccountInputToQBO (input : obj) : obj :=
  let qbo : obj := ∅ in
  let qbo := assign_if (truthy (prop input "name")) "Name" (prop input "name") qbo in
  let qbo := assign_if (truthy (prop input "fullyQualifiedName")) "FullyQualifiedName" (prop input "fullyQualifiedName") qbo in
  let qbo := assign_if (truthy (prop input "accountType")) "AccountType" (prop input "accountType") qbo in
  let qbo := assign_if (truthy (prop input "accountSubType")) "AccountSubType" (prop input "accountSubType") qbo in
  let qbo := assign_if (truthy (prop input "description")) "Description" (prop input "description") qbo in
  let qbo := assign_if (truthy (prop input "classification")) "Classification" (prop input "classification") qbo in
  let qbo := assign_if (truthy (prop input "accountNumber")) "AcctNum" (prop input "accountNumber") qbo in
  let qbo := assign_if (typeof_string (prop input "taxCodeRef")) "TaxCodeRef" (wrap "value" (prop input "taxCodeRef")) qbo in
  let qbo := assign_if (truthy (prop input "currencyRef")) "CurrencyRef" (wrap "value" (prop input "currencyRef")) qbo in
  let qbo := assign_if (typeof_boolean (prop input "subAccount")) "SubAccount" (prop input "subAccount") qbo in
  let qbo := assign_if (truthy (prop input "parentRef")) "ParentRef" (wrap "value" (prop input "parentRef")) qbo in
  let qbo := assign_if (typeof_number (prop input "currentBalance")) "CurrentBalance" (prop input "currentBalance") qbo in
  let qbo := assign_if (typeof_boolean (prop input "active")) "Active" (prop input "active") qbo in
  qbo.

(** The fields both mappers gate on the truthiness of a text value, with
    the property each one sets. *)
Definition customer_text_fields : list (string * string) :=
  [("displayName", "DisplayName"); ("companyName", "CompanyName");
   ("title", "Title"); ("givenName", "GivenName"); ("middleName", "MiddleName");
   ("familyName", "FamilyName"); ("suffix", "Suffix"); ("notes", "Notes");
   ("primaryEmail", "PrimaryEmailAddr"); ("primaryPhone", "PrimaryPhone");
   ("mobilePhone", "Mobile"); ("fax", "Fax")].

Definition account_text_fields : list (string * string) :=
  [("name", "Name"); ("fullyQualifiedName", "FullyQualifiedName");
   ("accountType", "AccountType"); ("accountSubType", "AccountSubType");
   ("description", "Description"); ("classification", "Classification");
   ("accountNumber", "AcctNum"); ("currencyRef", "CurrencyRef");
   ("parentRef", "ParentRef")].

(** The properties each mapper can set. *)
Definition customer_output_fields : list string :=
  ["DisplayName"; "CompanyName"; "Title"; "GivenName"; "MiddleName"; "FamilyName";
   "Suffix"; "Taxable"; "Notes"; "PrimaryEmailAddr"; "PrimaryPhone"; "Mobile";
   "Fax"; "BillAddr"; "ShipAddr"].

Definition account_output_fields : list string :=
  ["Name"; "FullyQualifiedName"; "AccountType"; "AccountSubType"; "Description";
   "Classification"; "AcctNum"; "TaxCodeRef"; "CurrencyRef"; "SubAccount";
   "ParentRef"; "CurrentBalance"; "Active"].

(** ** The world: globals, credentials file, observable events *)

Inductive http_method := GET | POST.

Record http_request := {
  req_url : string;
  req_method : http_method;
  req_headers : gmap string string;
  req_body : option string;
}.

Record response := {
  status : Z;
  text : string;
}.

(** [resp.ok] *)
Definition ok (resp : response) : bool :=
  (200 <=? status resp) && (status resp <=? 299).

(** What [await fetch(...)] gives: a response, or a rejection when the
    transport fails. *)
Inductive fetch_outcome :=
| FetchOk (resp : response)
| FetchFail.

Inductive event :=
| EFetch (req : http_request)   (* an HTTP call *)
| EConsole (line : string)      (* console.error / console.log *)
| EOpen (url : string)          (* open(authUrl) *)
| ESend (reply : string)        (* res.send(...) of the callback *)
| EServerClose.                 (* server.close() *)

(** What a JavaScript [throw] (or a rejected promise) carries. *)
Inductive exn :=
| JsError (message : string)    (* new Error(message) *)
| SyntaxError (source : string) (* JSON.parse on text that is not JSON *)
| FetchError                    (* fetch rejected *)
| FsError.                      (* fs.mkdirSync / fs.writeFileSync failed *)

Record world := {
  tokens : jsval;               (* let tokens: Record<string, any> | null *)
  config_dir : bool;            (* fs.existsSync(CONFIG_DIR) *)
  creds_file : option string;   (* contents of CREDS_PATH, when it exists *)
  fs_writable : bool;           (* whether the file system accepts writes *)
  trace : list event;           (* events so far, oldest first *)
}.

Definition set_tokens (v : jsval) (w : world) : world :=
  {| tokens := v; config_dir := config_dir w; creds_file := creds_file w;
     fs_writable := fs_writable w; trace := trace w |}.

Definition emit (e : event) (w : world) : world :=
  {| tokens := tokens w; config_dir := config_dir w; creds_file := creds_file w;
     fs_writable := fs_writable w; trace := trace w ++ [e] |}.

Definition set_config_dir (w : world) : world :=
  {| tokens := tokens w; config_dir := true; creds_file := creds_file w;
     fs_writable := fs_writable w; trace := trace w |}.

Definition set_creds_file (data : string) (w : world) : world :=
  {| tokens := tokens w; config_dir := config_dir w; creds_file := Some data;
     fs_writable := fs_writable w; trace := trace w |}.

(** The HTTP calls of a trace, oldest first. *)
Definition requests (tr : list event) : list http_request :=
  omap (fun e => match e with EFetch r => Some r | _ => None end) tr.

Definition fetches (w : world) : list http_request := requests (trace w).

(** ** The monad of one invocation *)

Inductive outcome (A : Type) :=
| Ok (a : A)
| Throw (e : exn).
Arguments Ok {A} a.
Arguments Throw {A} e.

Definition M (A : Type) : Type := world -> outcome A * world.

Definition ret {A} (a : A) : M A := fun w => (Ok a, w).

Definition throw {A} (e : exn) : M A := fun w => (Throw e, w).

Definition bind {A B} (m : M A) (k : A -> M B) : M B :=
  fun w =>
    match m w with
    | (Ok a, w') => k a w'
    | (Throw e, w') => (Throw e, w')
    end.

Notation "'let*' x := c 'in' k" := (bind c (fun x => k))
  (at level 10, x name, c at level 100, k at level 200).
Notation "c ;; k" := (bind c (fun _ => k))
  (at level 100, right associativity).

Definition read_tokens : M jsval := fun w => (Ok (tokens w), w).

Definition write_tokens (v : jsval) : M unit := fun w => (Ok tt, set_tokens v w).

Definition console (line : string) : M unit := fun w => (Ok tt, emit (EConsole line) w).

(** ** What the program takes from its host *)

(** The environment variables, the library functions and the remote
    servers.  [remote past req] is the outcome of the HTTP call [req]
    issued after the calls [past]. *)
Class Host := {
  CLIENT_ID : string;
  CLIENT_SECRET : string;
  REALM_ID : string;
  JSON_parse : string -> option jsval;
  JSON_stringify : jsval -> string;          (* JSON.stringify(v) *)
  JSON_stringify_2 : jsval -> string;        (* JSON.stringify(v, null, 2) *)
  base64 : string -> string;                 (* Buffer.from(s).toString("base64") *)
  encodeURIComponent : string -> string;
  URLSearchParams : list (string * string) -> string;
  remote : list http_request -> http_request -> fetch_outcome;
}.

Definition REDIRECT_URI : string := "http://localhost:3000/callback".
Definition QB_BASE : string := "https://sandbox-quickbooks.api.intuit.com/v3/company".
Definition MINOR_VERSION : Z := 75.
Definition TOKEN_ENDPOINT : string := "https://oauth.platform.intuit.com/oauth2/v1/tokens/bearer".

Section Server.
Context `{Host}.

Definition parse (s : string) : M jsval :=
  match JSON_parse s with
  | Some v => ret v
  | None => throw (SyntaxError s)
  end.

(** [await fetch(url, init)] *)
Definition fetch (req : http_request) : M response :=
  fun w =>
    match remote (fetches w) req with
    | FetchOk resp => (Ok resp, emit (EFetch req) w)
    | FetchFail => (Throw FetchError, emit (EFetch req) w)
    end.

(** *** Token store *)

Definition mkdirSync : M unit :=
  fun w => if fs_writable w then (Ok tt, set_config_dir w) else (Throw FsError, w).

Definition writeFileSync (data : string) : M unit :=
  fun w =>
    if fs_writable w && config_dir w then (Ok tt, set_creds_file data w)
    else (Throw FsError, w).

Definition saveTokens (newTokens : jsval) : M unit :=
  fun w =>
    ((if negb (config_dir w) then mkdirSync else ret tt) ;;
     writeFileSync (JSON_stringify_2 newTokens)) w.

Definition loadTokens : M unit :=
  fun w =>
    match creds_file w with
    | Some contents => (let* v := parse contents in write_tokens v) w
    | None => (Ok tt, w)
    end.

(** *** OAuth session *)

Definition basic_auth_headers : gmap string string :=
  <["Content-Type" := "application/x-www-form-urlencoded"]>
  (<["Authorization" := "Basic " +:+ base64 (CLIENT_ID +:+ ":" +:+ CLIENT_SECRET)]> ∅).

(** The call of [refreshTokens] to the token endpoint, for the bundle
    [tk] in memory. *)
Definition refresh_request (tk : jsval) : http_request :=
  let body := URLSearchParams
                [("grant_type", "refresh_token");
                 ("refresh_token", js_to_string (get tk "refresh_token"))] in
  {| req_url := TOKEN_ENDPOINT; req_method := POST;
     req_headers := basic_auth_headers; req_body := Some body |}.

Definition refreshTokens : M unit :=
  let* tk := read_tokens in
  if negb (truthy (get tk "refresh_token")) then
    throw (JsError "No refresh_token available; re-authentication required.")
  else
    let* resp := fetch (refresh_request tk) in
    if negb (ok resp) then
      throw (JsError ("Token refresh failed: " +:+ pretty (status resp) +:+ " - " +:+ text resp))
    else
      let* data := parse (text resp) in
      let* tk := read_tokens in
      let merged := JObj (spread2 (own_props (coalesce tk (JObj ∅)))
                                  (own_props (coalesce data (JObj ∅)))) in
      write_tokens merged ;;
      saveTokens merged.

(** How the promise returned by [authenticate] is settled. *)
Inductive rejection :=
| RejectString (reason : string)   (* reject("No code") *)
| RejectExn (err : exn).           (* reject(err) *)

Inductive settled :=
| Resolved
| Rejected (r : rejection).

Definition authUrl : string :=
  "https://appcenter.intuit.com/connect/oauth2?client_id=" +:+ CLIENT_ID +:+
  "&redirect_uri=" +:+ encodeURIComponent REDIRECT_URI +:+
  "&response_type=code&scope=com.intuit.quickbooks.accounting&state=12345".

(** The part of [authenticate] that runs before the promise: it announces
    and opens the authorization URL. *)
Definition authenticate_begin : M unit :=
  console ("Open this URL to authorize: " +:+ authUrl) ;;
  (fun w => (Ok tt, emit (EOpen authUrl) w)).

(** The call of the callback handler to the token endpoint. *)
Definition code_request (code : jsval) : http_request :=
  {| req_url := TOKEN_ENDPOINT; req_method := POST;
     req_headers := basic_auth_headers;
     req_body := Some ("grant_type=authorization_code&code=" +:+
                       encodeURIComponent (js_to_string code) +:+
                       "&redirect_uri=" +:+
                       encodeURIComponent REDIRECT_URI) |}.

Definition SUCCESS_PAGE : string :=
  "Authentication successful! You can close this window.".

(** The handler of [GET /callback], with [code = req.query.code]. *)
Definition callback (code : jsval) : world -> settled * world :=
  fun w =>
    if negb (truthy code) then
      (Rejected (RejectString "No code"), emit (ESend "No code provided") w)
    else
      let attempt : M unit :=
        let* resp := fetch (code_request code) in
        let* data := parse (text resp) in
        write_tokens data ;;
        saveTokens data ;;
        (fun w => (Ok tt, emit (ESend SUCCESS_PAGE) w)) ;;
        (fun w => (Ok tt, emit EServerClose w)) in
      match attempt w with
      | (Ok _, w') => (Resolved, w')
      | (Throw err, w') => (Rejected (RejectExn err), w')
      end.

(** *** Request executor *)

Record QbOptions := {
  method : option http_method;
  body : jsval;                              (* undefined when absent *)
  headers : option (gmap string string);
}.

Definition no_options : QbOptions :=
  {| method := None; body := JUndef; headers := None |}.

(** The two URL constants at the head of [qbRequest]. *)
Definition base_url (endpoint : string) : string :=
  QB_BASE +:+ "/" +:+ REALM_ID +:+ "/" +:+ endpoint.

Definition request_url (endpoint : string) : string :=
  let baseUrl := base_url endpoint in
  baseUrl +:+ (if includes baseUrl "?"
               then "&minorversion=" +:+ pretty MINOR_VERSION
               else "?minorversion=" +:+ pretty MINOR_VERSION).

(** The object returned by [doFetch] on a 401. *)
Definition need_refresh (text : string) : jsval :=
  JObj (<["text" := JStr text]> (<["needRefresh" := JBool true]> ∅)).

(** The call issued by [doFetch], for the bundle [tk] in memory. *)
Definition api_request (url : string) (options : QbOptions) (tk : jsval) : http_request :=
  {| req_url := url;
     req_method := default GET (method options);
     req_headers :=
       default ∅ (headers options) ∪
       ((if truthy (body options)
         then {[ "Content-Type" := "application/json" ]} else ∅) ∪
        (<["Accept" := "application/json"]>
         (<["Authorization" := "Bearer " +:+ js_to_string (get tk "access_token")]> ∅)));
     req_body := if truthy (body options)
                 then Some (JSON_stringify (body options)) else None |}.

(** The message of the error thrown for a response that is neither 2xx
    nor 401. *)
Definition api_error (resp : response) : exn :=
  JsError ("QuickBooks API error: " +:+ pretty (status resp) +:+ " - " +:+ text resp).

(** The inner closure [doFetch] of [qbRequest]; it reads the global
    [tokens] each time it runs. *)
Definition doFetch (url : string) (options : QbOptions) : M jsval :=
  console ("[QB] Requesting: " +:+ url) ;;
  let* tk := read_tokens in
  let* resp := fetch (api_request url options tk) in
  console ("[QB] Response status: " +:+ pretty (status resp)) ;;
  console ("[QB] Response body: " +:+ text resp) ;;
  if negb (ok resp) then
    if status resp =? 401 then ret (need_refresh (text resp))
    else throw (api_error resp)
  else
    parse (if String.eqb (text resp) "" then "{}" else text resp).

(** The world [doFetch] leaves once it has received [resp]: three console
    lines around one HTTP call. *)
Definition exchanged (url : string) (options : QbOptions) (resp : response)
    (w : world) : world :=
  emit (EConsole ("[QB] Response body: " +:+ text resp))
    (emit (EConsole ("[QB] Response status: " +:+ pretty (status resp)))
       (emit (EFetch (api_request url options (tokens w)))
          (emit (EConsole ("[QB] Requesting: " +:+ url)) w))).

Definition qbRequest (endpoint : string) (options : QbOptions) : M jsval :=
  let* tk := read_tokens in
  if negb (truthy (get tk "access_token")) then
    throw (JsError "Not authenticated. Run auth first.")
  else
    let url := request_url endpoint in
    let* result := doFetch url options in
    if truthy (get result "needRefresh") then
      refreshTokens ;;
      let* result := doFetch url options in
      if truthy (get result "needRefresh") then
        throw (JsError "Unauthorized after token refresh.")
      else ret result
    else ret result.

Definition getCustomerRaw (id : jsval) : M jsval :=
  let* data := qbRequest ("customer/" +:+ js_to_string id)
                    {| method := Some GET; body := JUndef; headers := None |} in
  ret (get data "Customer").

Definition getAccountRaw (id : jsval) : M jsval :=
  let* data := qbRequest ("account/" +:+ js_to_string id)
                    {| method := Some GET; body := JUndef; headers := None |} in
  ret (get data "Account").

(** *** Update tools *)

Record content_item := { type : string; item_text : string }.
Record tool_result := { content : list content_item }.

Definition text_result (v : jsval) : tool_result :=
  {| content := [ {| type := "text"; item_text := JSON_stringify_2 v |} ] |}.

(** [sparse = true] in a destructuring pattern: the default applies when
    the property is [undefined]. *)
Definition with_default (v d : jsval) : jsval :=
  if is_undefined v then d else v.

(** [{ Id: existing.Id, SyncToken: existing.SyncToken,
       ...(sparse ? { sparse: true } : {}), ...mapped }] *)
Definition update_body (existing sparse : jsval) (mapped : obj) : obj :=
  spread2
    (spread2 (<["SyncToken" := get existing "SyncToken"]>
              (<["Id" := get existing "Id"]> ∅))
             (if truthy sparse then {[ "sparse" := JBool true ]} else ∅))
    mapped.

(** [{ Id: existing.Id, SyncToken: existing.SyncToken, sparse: true,
       Active: active }] *)
Definition active_body (existing active : jsval) : obj :=
  <["Active" := active]>
  (<["sparse" := JBool true]>
  (<["SyncToken" := get existing "SyncToken"]>
  (<["Id" := get existing "Id"]> ∅))).

(** The test guarding every update:
    [!existing?.Id || existing.SyncToken === undefined]. *)
Definition unusable (existing : jsval) : bool :=
  negb (truthy (get existing "Id")) || is_undefined (get existing "SyncToken").

Definition post (b : obj) : QbOptions :=
  {| method := Some POST; body := JObj b; headers := None |}.

Definition update_customer (input : obj) : M tool_result :=
  let customerId := prop input "customerId" in
  let sparse := with_default (prop input "sparse") (JBool true) in
  let patch := delete "sparse" (delete "customerId" input) in
  let* existing := getCustomerRaw customerId in
  if unusable existing then
    throw (JsError "Could not fetch existing customer or SyncToken.")
  else
    let body := update_body existing sparse (mapCustomerInputToQBO patch) in
    let* data := qbRequest "customer?operation=update" (post body) in
    let updated := coalesce (get data "Customer") data in
    ret (text_result updated).

Definition set_customer_active (customerId active : jsval) : M tool_result :=
  let* existing := getCustomerRaw customerId in
  if unusable existing then
    throw (JsError "Could not fetch existing customer or SyncToken.")
  else
    let body := active_body existing active in
    let* data := qbRequest "customer?operation=update" (post body) in
    let updated := coalesce (get data "Customer") data in
    ret (text_result updated).

Definition update_account (input : obj) : M tool_result :=
  let accountId := prop input "accountId" in
  let sparse := with_default (prop input "sparse") (JBool true) in
  let patch := delete "sparse" (delete "accountId" input) in
  let* existing := getAccountRaw accountId in
  if unusable existing then
    throw (JsError "Could not fetch existing account or SyncToken.")
  else
    let body := update_body existing sparse (mapAccountInputToQBO patch) in
    let* data := qbRequest "account?operation=update" (post body) in
    let updated := coalesce (get data "Account") data in
    ret (text_result updated).

Definition set_account_active (accountId active : jsval) : M tool_result :=
  let* existing := getAccountRaw accountId in
  if unusable existing then
    throw (JsError "Could not fetch existing account or SyncToken.")
  else
    let body := active_body existing active in
    let* data := qbRequest "account?operation=update" (post body) in
    let updated := coalesce (get data "Account") data in
    ret (text_result updated).

End Server.

(** ** The read-modify-write protocol of the update tools *)

Section Protocol.
Context `{Host}.



(** The last step of an update tool: the write, and the text returned. *)
Definition write_step (endpoint wrapper : string) (b : obj) : M tool_result :=
  let* data := qbRequest endpoint (post b) in
  ret (text_result (coalesce (get data wrapper) data)).


(** The destructuring [{ customerId, sparse = true, ...patch }]. *)
Definition customer_patch (input : obj) : obj := delete "sparse" (delete "customerId" input).
Definition account_patch (input : obj) : obj := delete "sparse" (delete "accountId" input).
Definition sparse_flag (input : obj) : jsval := with_default (prop input "sparse") (JBool true).

End Protocol.

(** ** Query, read and create tools *)

(** [s.replace(/'/g, "\\'")]: a backslash is put before every single
    quote (character 39; the backslash is character 92). *)
Fixpoint esc (s : string) : string :=
  match s with
  | EmptyString => EmptyString
  | String c r =>
      if Ascii.eqb c "039" then String "092" (String "039" (esc r))
      else String c (esc r)
  end.

(** [if (v)] for an optional string of the validated input. *)
Definition present (v : option string) : bool :=
  match v with
  | Some s => negb (String.eqb s "")
  | None => false
  end.

(** [if (v) conditions.push(cond(v))], as the list of what is pushed. *)
Definition push_if (v : option string) (cond : string -> string) : list string :=
  if present v then [cond (default "" v)] else [].

(** [if (typeof activeOnly === "boolean") conditions.push(...)] *)
Definition push_active (activeOnly : option bool) : list string :=
  match activeOnly with
  | Some b => ["Active = " +:+ (if b then "true" else "false")]
  | None => []
  end.

(** [`${field} LIKE '${esc(v)}%'`] and [`${field} = '${esc(v)}'`] *)
Definition like (field v : string) : string :=
  field +:+ " LIKE '" +:+ esc v +:+ "%'".
Definition equals (field v : string) : string :=
  field +:+ " = '" +:+ esc v +:+ "'".

(** [conditions.length ? ` WHERE ${conditions.join(" AND ")}` : ""] *)
Definition where_clause (conditions : list string) : string :=
  match conditions with
  | [] => ""
  | _ => " WHERE " +:+ String.concat " AND " conditions
  end.

(** [` ORDER BY ${orderBy} ${sort} STARTPOSITION ${startPosition}
      MAXRESULTS ${maxResults}`] *)
Definition paging (orderBy sort : string) (startPosition maxResults : Z) : string :=
  " ORDER BY " +:+ orderBy +:+ " " +:+ sort +:+
  " STARTPOSITION " +:+ pretty startPosition +:+
  " MAXRESULTS " +:+ pretty maxResults.

(** The validated input of [search_customers]. *)
Record customer_search := {
  cs_displayName : option string;
  cs_companyName : option string;
  cs_givenName : option string;
  cs_familyName : option string;
  cs_email : option string;
  cs_phone : option string;
  cs_activeOnly : option bool;
  cs_startPosition : Z;
  cs_maxResults : Z;
  cs_orderBy : string;
  cs_sort : string;
}.

Definition customer_conditions (a : customer_search) : list string :=
  push_active (cs_activeOnly a) ++
  push_if (cs_displayName a) (like "DisplayName") ++
  push_if (cs_companyName a) (like "CompanyName") ++
  push_if (cs_givenName a) (like "GivenName") ++
  push_if (cs_familyName a) (like "FamilyName") ++
  push_if (cs_email a) (like "PrimaryEmailAddr.Address") ++
  push_if (cs_phone a) (like "PrimaryPhone.FreeFormNumber").

Definition search_customers_sql (a : customer_search) : string :=
  "SELECT * FROM Customer" +:+ where_clause (customer_conditions a) +:+
  paging (cs_orderBy a) (cs_sort a) (cs_startPosition a) (cs_maxResults a).

(** The validated input of [search_accounts]. *)
Record account_search := {
  as_name : option string;
  as_accountType : option string;
  as_accountSubType : option string;
  as_classification : option string;
  as_activeOnly : option bool;
  as_startPosition : Z;
  as_maxResults : Z;
  as_orderBy : string;
  as_sort : string;
}.

Definition account_conditions (a : account_search) : list string :=
  push_active (as_activeOnly a) ++
  push_if (as_name a) (like "Name") ++
  push_if (as_accountType a) (equals "AccountType") ++
  push_if (as_accountSubType a) (equals "AccountSubType") ++
  push_if (as_classification a) (equals "Classification").

Definition search_accounts_sql (a : account_search) : string :=
  "SELECT * FROM Account" +:+ where_clause (account_conditions a) +:+
  paging (as_orderBy a) (as_sort a) (as_startPosition a) (as_maxResults a).

(** [v[0]] *)
Definition first_element (v : jsval) : jsval :=
  match v with
  | JArr (x :: _) => x
  | JObj m => prop m "0"
  | JStr (String c _) => JStr (String c EmptyString)
  | _ => JUndef
  end.

(** [data?.QueryResponse?.<entity> ?? []] *)
Definition rows (data : jsval) (entity : string) : jsval :=
  coalesce (get (get data "QueryResponse") entity) (JArr []).

Section Queries.
Context `{Host}.

Definition qbQuery (sql : string) : M jsval :=
  let q := encodeURIComponent sql in
  qbRequest ("query?query=" +:+ q)
            {| method := Some GET; body := JUndef; headers := None |}.

Definition list_customers (startPosition maxResults : Z) : M tool_result :=
  let sql := "SELECT * FROM Customer" +:+
             paging "Metadata.LastUpdatedTime" "DESC" startPosition maxResults in
  let* data := qbQuery sql in
  ret (text_result (rows data "Customer")).

Definition search_customers (a : customer_search) : M tool_result :=
  let* data := qbQuery (search_customers_sql a) in
  ret (text_result (rows data "Customer")).

Definition get_customer_by_display_name (displayName : string) : M tool_result :=
  let safe := esc displayName in
  let sql := "SELECT * FROM Customer WHERE DisplayName = '" +:+ safe +:+ "'" in
  let* data := qbQuery sql in
  let customers := rows data "Customer" in
  let hit := coalesce (first_element customers) JNull in
  ret (text_result hit).

Definition get_account_by_id (accountId : jsval) : M tool_result :=
  let* data := qbRequest ("account/" +:+ js_to_string accountId)
                 {| method := Some GET; body := JUndef; headers := None |} in
  let account := coalesce (get data "Account") data in
  ret (text_result account).

Definition list_accounts (startPosition maxResults : Z) : M tool_result :=
  let sql := "SELECT * FROM Account" +:+
             paging "Metadata.LastUpdatedTime" "DESC" startPosition maxResults in
  let* data := qbQuery sql in
  ret (text_result (rows data "Account")).

Definition search_accounts (a : account_search) : M tool_result :=
  let* data := qbQuery (search_accounts_sql a) in
  ret (text_result (rows data "Account")).

Definition create_customer (input : obj) : M tool_result :=
  let body := mapCustomerInputToQBO input in
  let* data := qbRequest "customer" (post body) in
  let created := coalesce (get data "Customer") data in
  ret (text_result created).

Definition create_account (input : obj) : M tool_result :=
  let body := mapAccountInputToQBO input in
  let* data := qbRequest "account" (post body) in
  let created := coalesce (get data "Account") data in
  ret (text_result created).

End Queries.

(** ** The mappers over a store of objects *)

(** In JavaScript an object is held by reference, and [qbo.K = v] updates
    the object in place.  To speak of which objects the mappers create and
    which they update, the mappers are written a second time over a store
    mapping locations to objects. *)
Module Store.

Definition loc := positive.

(** Primitives by value, objects (and arrays) by reference. *)
Inductive value : Type :=
| VUndef
| VNull
| VBool (b : bool)
| VNum (n : Z)
| VStr (s : string)
| VRef (l : loc).

Abbreviation object := (gmap string value).
Abbreviation heap := (gmap loc object).

Definition truthy (v : value) : bool :=
  match v with
  | VUndef | VNull => false
  | VBool b => b
  | VNum n => negb (n =? 0)
  | VStr s => negb (String.eqb s "")
  | VRef _ => true
  end.

Definition typeof_boolean (v : value) : bool :=
  match v with VBool _ => true | _ => false end.
Definition typeof_string (v : value) : bool :=
  match v with VStr _ => true | _ => false end.
Definition typeof_number (v : value) : bool :=
  match v with VNum _ => true | _ => false end.

Definition js_not (v : value) : value := VBool (negb (truthy v)).

(** [v.k] *)
Definition read (h : heap) (v : value) (k : string) : value :=
  match v with
  | VRef l =>
      match h !! l with
      | Some o => default VUndef (o !! k)
      | None => VUndef
      end
  | _ => VUndef
  end.

(** An object literal: a new object at a location not in use. *)
Definition alloc (o : object) (h : heap) : loc * heap :=
  let l := fresh (dom h) in (l, <[l := o]> h).

(** [q.K = v] *)
Definition assign (q : loc) (K : string) (v : value) (h : heap) : heap :=
  alter (<[K := v]>) q h.

(** [if (test(input.k)) qbo.K = f(input.k);] *)
Definition copy_if (test : value -> bool) (input : loc) (k : string)
    (qbo : loc) (K : string) (f : value -> value) (h : heap) : heap :=
  let v := read h (VRef input) k in
  if test v then assign qbo K (f v) h else h.

(** [if (test(input.k)) qbo.K = { K': input.k };] *)
Definition wrap_if (test : value -> bool) (input : loc) (k : string)
    (qbo : loc) (K K' : string) (h : heap) : heap :=
  let v := read h (VRef input) k in
  if test v then
    let '(a, h1) := alloc {[ K' := v ]} h in
    assign qbo K (VRef a) h1
  else h.

(** [if (input.k) { const b = input.k; qbo.K = { Line1: b.line1, ... }; }] *)
Definition address_if (input : loc) (k : string) (qbo : loc) (K : string)
    (h : heap) : heap :=
  let b := read h (VRef input) k in
  if truthy b then
    let '(a, h1) :=
      alloc (<["Country" := read h b "country"]>
            (<["PostalCode" := read h b "postalCode"]>
            (<["CountrySubDivisionCode" := read h b "countrySubDivisionCode"]>
            (<["City" := read h b "city"]>
            (<["Line2" := read h b "line2"]>
            (<["Line1" := read h b "line1"]> ∅)))))) h in
    assign qbo K (VRef a) h1
  else h.

Definition same (v : value) : value := v.

Definition mapCustomerInputToQBO (input : loc) (h : heap) : value * heap :=
  let '(qbo, h) := alloc ∅ h in
  let h := copy_if truthy input "displayName" qbo "DisplayName" same h in
  let h := copy_if truthy input "companyName" qbo "CompanyName" same h in
  let h := copy_if truthy input "title" qbo "Title" same h in
  let h := copy_if truthy input "givenName" qbo "GivenName" same h in
  let h := copy_if truthy input "middleName" qbo "MiddleName" same h in
  let h := copy_if truthy input "familyName" qbo "FamilyName" same h in
  let h := copy_if truthy input "suffix" qbo "Suffix" same h in
  let h := copy_if typeof_boolean input "taxExempt" qbo "Taxable" js_not h in
  let h := copy_if truthy input "notes" qbo "Notes" same h in
  let h := wrap_if truthy input "primaryEmail" qbo "PrimaryEmailAddr" "Address" h in
  let h := wrap_if truthy input "primaryPhone" qbo "PrimaryPhone" "FreeFormNumber" h in
  let h := wrap_if truthy input "mobilePhone" qbo "Mobile" "FreeFormNumber" h in
  let h := wrap_if truthy input "fax" qbo "Fax" "FreeFormNumber" h in
  let h := address_if input "billAddr" qbo "BillAddr" h in
  let h := address_if input "shipAddr" qbo "ShipAddr" h in
  (VRef qbo, h).

Definition mapAccountInputToQBO (input : loc) (h : heap) : value * heap :=
  let '(qbo, h) := alloc ∅ h in
  let h := copy_if truthy input "name" qbo "Name" same h in
  let h := copy_if truthy input "fullyQualifiedName" qbo "FullyQualifiedName" same h in
  let h := copy_if truthy input "accountType" qbo "AccountType" same h in
  let h := copy_if truthy input "accountSubType" qbo "AccountSubType" same h in
  let h := copy_if truthy input "description" qbo "Description" same h in
  let h := copy_if truthy input "classification" qbo "Classification" same h in
  let h := copy_if truthy input "accountNumber" qbo "AcctNum" same h in
  let h := wrap_if typeof_string input "taxCodeRef" qbo "TaxCodeRef" "value" h in
  let h := wrap_if truthy input "currencyRef" qbo "CurrencyRef" "value" h in
  let h := copy_if typeof_boolean input "subAccount" qbo "SubAccount" same h in
  let h := wrap_if truthy input "parentRef" qbo "ParentRef" "value" h in
  let h := copy_if typeof_number input "currentBalance" qbo "CurrentBalance" same h in
  let h := copy_if typeof_boolean input "active" qbo "Active" same h in
  (VRef qbo, h).

(** Every object of [h] is still there, unchanged, in [h']. *)
Definition extends (h h' : heap) : Prop :=
  forall (l : loc) (o : object), h !! l = Some o -> h' !! l = Some o.

(** The tree a stored value stands for.  [models h v j]: following the
    references of [v] in [h] gives the tree [j]. *)
Inductive models (h : heap) : value -> jsval -> Prop :=
| models_undef : models h VUndef JUndef
| models_null : models h VNull JNull
| models_bool b : models h (VBool b) (JBool b)
| models_num n : models h (VNum n) (JNum n)
| models_str s : models h (VStr s) (JStr s)
| models_obj l o m :
    h !! l = Some o ->
    (forall k, o !! k = None <-> m !! k = None) ->
    (forall k v j, o !! k = Some v -> m !! k = Some j -> models h v j) ->
    models h (VRef l) (JObj m).

(** The object [o] stands, field by field, for the tree object [m]. *)
Definition related (h : heap) (o : object) (m : obj) : Prop :=
  (forall k : string, o !! k = None <-> m !! k = None) /\
  (forall (k : string) v j, o !! k = Some v -> m !! k = Some j -> models h v j).

(** The state of a mapper between two statements: the objects of the
    initial store [h0] are untouched, and the object under construction at
    [q], which is not one of them, stands for [m]. *)
Definition building (h0 h : heap) (q : loc) (m : obj) : Prop :=
  h0 !! q = None /\
  extends h0 h /\
  exists o, h !! q = Some o /\ related (delete q h) o m.

End Store.

(** ** A scripted host, for running scenarios *)

(** The remote servers answer the [n]-th call with the [n]-th entry of
    [script]; the transport fails once the script is exhausted.
    [table] lists the texts [JSON.parse] accepts, with their values. *)
(** A one-level printer standing for [JSON.stringify] in scenarios. *)
Definition show (v : jsval) : string :=
  match v with
  | JObj m =>
      "{" +:+
      String.concat ","
        (List.map (fun e => fst e +:+ ":" +:+ js_to_string (snd e)) (map_to_list m))
      +:+ "}"
  | _ => js_to_string v
  end.

Definition scripted (script : list fetch_outcome)
    (table : list (string * jsval)) : Host :=
  {| CLIENT_ID := "client-id";
     CLIENT_SECRET := "client-secret";
     REALM_ID := "4620816365";
     JSON_parse := fun s => snd <$> List.find (fun e => String.eqb (fst e) s) table;
     JSON_stringify := show;
     JSON_stringify_2 := fun v => "indent 2: " +:+ show v;
     base64 := fun s => "b64:" +:+ s;
     encodeURIComponent := fun s => s;
     URLSearchParams := fun l =>
       String.concat "&" (List.map (fun e => fst e +:+ "=" +:+ snd e) l);
     remote := fun past _ => nth (length past) script FetchFail |}.

(** The state of a process that has just started, with no credentials
    file. *)
Definition fresh_world : world :=
  {| tokens := JNull; config_dir := false; creds_file := None;
     fs_writable := true; trace := [] |}.

(** A process holding the bundle [tk], with its file on disk. *)
Definition world_with (tk : jsval) : world :=
  {| tokens := tk; config_dir := true; creds_file := Some "saved";
     fs_writable := true; trace := [] |}.

(** Bundles and answers used in the scenarios. *)
Definition old_bundle : obj :=
  <["realmId" := JStr "4620816365"]>
  (<["refresh_token" := JStr "r0"]>
  (<["access_token" := JStr "a0"]> ∅)).

Definition rotated : jsval :=
  JObj (<["refresh_token" := JStr "r1"]> (<["access_token" := JStr "a1"]> ∅)).

Definition access_only : jsval := JObj {[ "access_token" := JStr "a0" ]}.

Definition invalid_grant : jsval := JObj {[ "error" := JStr "invalid_grant" ]}.

Definition answer (s : Z) (t : string) : fetch_outcome :=
  FetchOk {| status := s; text := t |}.

Definition record_42 : jsval :=
  JObj (<["Active" := JBool true]>
       (<["DisplayName" := JStr "Acme"]>
       (<["SyncToken" := JStr "3"]>
       (<["Id" := JStr "42"]> ∅)))).


(** A remote service holding customer (or account) 42 at version 3, which
    accepts the write. *)
Definition service_42 : Host :=
  scripted [answer 200 "ENTITY"; answer 200 "{}"]
           [("ENTITY", JObj (<["Account" := record_42]> {[ "Customer" := record_42 ]}));
            ("{}", JObj ∅)].


(** A remote service that has moved customer 42 past the version the
    write refers to, and rejects the write. *)
Definition service_conflict : Host :=
  scripted [answer 200 "ENTITY"; answer 400 "Stale Object Error"]
           [("ENTITY", JObj {[ "Customer" := record_42 ]})].

Definition rename_customer_42 : obj :=
  <["displayName" := JStr "Acme Ltd"]> {[ "customerId" := JStr "42" ]}.

Definition deactivate_customer_42 : obj :=
  <["active" := JBool false]> {[ "customerId" := JStr "42" ]}.

Definition deactivate_account_42 : obj :=
  <["active" := JBool false]> {[ "accountId" := JStr "42" ]}.

(** A process holding the bundle [tk] on a file system that refuses
    writes. *)
Definition read_only_world (tk : jsval) : world :=
  {| tokens := tk; config_dir := true; creds_file := Some "saved";
     fs_writable := false; trace := [] |}.

(** A host whose [JSON.parse] reads back the printed bundle [access_only]. *)
Definition reading_back : Host :=
  scripted [] [("indent 2: {access_token:a0}", access_only)].

(** A token endpoint that rotates the tokens, behind a service that
    answers 401 first. *)
Definition rotating (last : fetch_outcome) : Host :=
  scripted [answer 401 "expired"; answer 200 "TOKENS"; last]
           [("TOKENS", rotated); ("{}", JObj ∅)].

(** A token endpoint that rejects the refresh token. *)
Definition rejecting : Host :=
  scripted [answer 401 "expired"; answer 400 "invalid_grant"] [].

(** A service whose answer 200 has a [needRefresh] field. *)
Definition asking : Host :=
  scripted [answer 200 "ASK"] [("ASK", JObj {[ "needRefresh" := JBool true ]})].

(** A service answering 200 with an empty body. *)
Definition silent : Host := scripted [answer 200 ""] [("{}", JObj ∅)].

(** A service with two customers of the same name. *)
Definition two_rows : Host :=
  scripted [answer 200 "ROWS"]
           [("ROWS", JObj {[ "QueryResponse" :=
                               JObj {[ "Customer" := JArr [record_42; JObj ∅] ]} ]})].

(** A service that answers a creation with the created customer. *)
Definition creating : Host :=
  scripted [answer 200 "CREATED"] [("CREATED", JObj {[ "Customer" := record_42 ]})].

Definition new_customer : obj :=
  <["Id" := JStr "7"]> {[ "displayName" := JStr "Acme" ]}.

(** * Properties *)

(** ** Values and mappers *)

Lemma own_props_coalesce (v : jsval) :
  own_props (coalesce v (JObj ∅)) = own_props v.
Proof. destruct v; reflexivity. Qed.

Lemma lookup_assign_if_ne (c : bool) (K k : string) (v : jsval) (qbo : obj) :
  K ≠ k -> assign_if c K v qbo !! k = qbo !! k.
Proof.
  intros Hne. unfold assign_if. destruct c; [|reflexivity].
  now apply lookup_insert_ne.
Qed.

Lemma lookup_assign_if_eq (c : bool) (K : string) (v : jsval) (qbo : obj) :
  assign_if c K v qbo !! K = if c then Some v else qbo !! K.
Proof.
  unfold assign_if. destruct c; [|reflexivity]. apply lookup_insert_eq.
Qed.

Lemma includes_question_mark (s : string) :
  includes s "?" = true <-> In "?"%char (list_ascii_of_string s).
Proof.
  induction s as [|c r IH]; cbn [includes String.prefix list_ascii_of_string In].
  - split; [discriminate | tauto].
  - destruct (ascii_dec "?" c) as [Heq|Hne].
    + assert (Hp : String.prefix "" r = true) by (destruct r; reflexivity).
      rewrite Hp. cbn [orb]. split; auto.
    + cbn [orb]. rewrite IH.
      split; [auto | intros [Heq|Hin]; [congruence | exact Hin]].
Qed.

(** An empty text never reaches the output of a truthiness-gated field. *)
Ltac skip_assignments Hempty :=
  repeat first
    [ rewrite lookup_assign_if_ne by discriminate
    | rewrite lookup_assign_if_eq, Hempty; cbn [truthy String.eqb negb] ];
  apply lookup_empty.

Lemma customer_text_field_omitted (input : obj) (k K : string) :
  In (k, K) customer_text_fields ->
  prop input k = JStr "" ->
  mapCustomerInputToQBO input !! K = None.
Proof.
  intros Hin Hempty. unfold mapCustomerInputToQBO. cbv zeta.
  cbn [In customer_text_fields] in Hin.
  repeat (destruct Hin as [Heq|Hin];
          [injection Heq as <- <-; skip_assignments Hempty|]).
  contradiction.
Qed.

Lemma account_text_field_omitted (input : obj) (k K : string) :
  In (k, K) account_text_fields ->
  prop input k = JStr "" ->
  mapAccountInputToQBO input !! K = None.
Proof.
  intros Hin Hempty. unfold mapAccountInputToQBO. cbv zeta.
  cbn [In account_text_fields] in Hin.
  repeat (destruct Hin as [Heq|Hin];
          [injection Heq as <- <-; skip_assignments Hempty|]).
  contradiction.
Qed.

(** The fields gated on a type test, and the addresses, reach the output
    whatever text they hold. *)
Lemma account_taxCodeRef_kept (input : obj) :
  typeof_string (prop input "taxCodeRef") = true ->
  mapAccountInputToQBO input !! "TaxCodeRef" = Some (wrap "value" (prop input "taxCodeRef")).
Proof.
  intros Ht. unfold mapAccountInputToQBO. cbv zeta.
  rewrite !lookup_assign_if_ne by discriminate.
  now rewrite lookup_assign_if_eq, Ht.
Qed.

Lemma customer_addresses_kept (input : obj) :
  (truthy (prop input "billAddr") = true ->
   mapCustomerInputToQBO input !! "BillAddr" = Some (address_literal (prop input "billAddr"))) /\
  (truthy (prop input "shipAddr") = true ->
   mapCustomerInputToQBO input !! "ShipAddr" = Some (address_literal (prop input "shipAddr"))).
Proof.
  unfold mapCustomerInputToQBO. cbv zeta. split; intros Ht.
  - rewrite !lookup_assign_if_ne by discriminate.
    now rewrite lookup_assign_if_eq, Ht.
  - now rewrite lookup_assign_if_eq, Ht.
Qed.

(** ** The mappers over the store *)

Lemma store_alloc_fresh (o : Store.object) (h : Store.heap) :
  h !! fst (Store.alloc o h) = None.
Proof. unfold Store.alloc. cbn [fst]. apply not_elem_of_dom, is_fresh. Qed.

Lemma store_alloc_lookup (o : Store.object) (h : Store.heap) :
  snd (Store.alloc o h) !! fst (Store.alloc o h) = Some o.
Proof. unfold Store.alloc. cbn [fst snd]. apply lookup_insert_eq. Qed.

Lemma store_extends_refl (h : Store.heap) : Store.extends h h.
Proof. intros l o Hl. exact Hl. Qed.

Lemma store_extends_trans (h1 h2 h3 : Store.heap) :
  Store.extends h1 h2 -> Store.extends h2 h3 -> Store.extends h1 h3.
Proof. intros H12 H23 l o Hl. apply H23, H12, Hl. Qed.

Lemma store_alloc_extends (o : Store.object) (h : Store.heap) :
  Store.extends h (snd (Store.alloc o h)).
Proof.
  intros l o' Hl. unfold Store.alloc. cbn [snd].
  rewrite lookup_insert_ne; [exact Hl|].
  intros Heq. pose proof (store_alloc_fresh o h) as Hf.
  unfold Store.alloc in Hf. cbn [fst] in Hf. rewrite Heq in Hf. congruence.
Qed.

(** Assigning to an object that [h0] does not hold leaves the objects of
    [h0] alone. *)
Lemma store_assign_preserves (h0 h : Store.heap) (q : Store.loc) K v :
  h0 !! q = None ->
  Store.extends h0 h ->
  Store.extends h0 (Store.assign q K v h).
Proof.
  intros Hq He l o Hl. unfold Store.assign.
  rewrite lookup_alter_ne; [apply He, Hl | congruence].
Qed.

Lemma store_copy_if_preserves (h0 h : Store.heap) test input k q K f :
  h0 !! q = None ->
  Store.extends h0 h ->
  Store.extends h0 (Store.copy_if test input k q K f h).
Proof.
  intros Hq He. unfold Store.copy_if. cbv zeta.
  destruct (test _); [now apply store_assign_preserves | exact He].
Qed.

Lemma store_wrap_if_preserves (h0 h : Store.heap) test input k q K K' :
  h0 !! q = None ->
  Store.extends h0 h ->
  Store.extends h0 (Store.wrap_if test input k q K K' h).
Proof.
  intros Hq He. unfold Store.wrap_if. cbv zeta.
  destruct (test _); [|exact He].
  destruct (Store.alloc _ h) as [a h1] eqn:Ha.
  apply store_assign_preserves; [exact Hq|].
  apply (store_extends_trans _ _ _ He).
  replace h1 with (snd (Store.alloc {[K' := Store.read h (Store.VRef input) k]} h))
    by now rewrite Ha.
  apply store_alloc_extends.
Qed.

Lemma store_address_if_preserves (h0 h : Store.heap) input k q K :
  h0 !! q = None ->
  Store.extends h0 h ->
  Store.extends h0 (Store.address_if input k q K h).
Proof.
  intros Hq He. unfold Store.address_if. cbv zeta.
  destruct (Store.truthy _); [|exact He].
  match goal with |- context [Store.alloc ?o h] =>
    destruct (Store.alloc o h) as [a h1] eqn:Ha;
    apply store_assign_preserves; [exact Hq|];
    apply (store_extends_trans _ _ _ He);
    replace h1 with (snd (Store.alloc o h)) by now rewrite Ha
  end.
  apply store_alloc_extends.
Qed.

Ltac store_frame :=
  repeat match goal with
    | |- Store.extends _ (Store.copy_if _ _ _ _ _ _ _) =>
        apply store_copy_if_preserves
    | |- Store.extends _ (Store.wrap_if _ _ _ _ _ _ _) =>
        apply store_wrap_if_preserves
    | |- Store.extends _ (Store.address_if _ _ _ _ _) =>
        apply store_address_if_preserves
    end.

(** The customer mapper returns a new object and changes no object of the
    store it was given. *)
Lemma store_customer_frame (input : Store.loc) (h : Store.heap) :
  exists q,
    fst (Store.mapCustomerInputToQBO input h) = Store.VRef q /\
    h !! q = None /\
    Store.extends h (snd (Store.mapCustomerInputToQBO input h)).
Proof.
  unfold Store.mapCustomerInputToQBO.
  pose proof (store_alloc_fresh ∅ h) as Hf.
  pose proof (store_alloc_extends ∅ h) as He.
  destruct (Store.alloc ∅ h) as [q h1]. cbn [fst snd] in Hf, He |- *.
  exists q. split; [reflexivity|]. split; [exact Hf|].
  store_frame; assumption.
Qed.

Lemma store_account_frame (input : Store.loc) (h : Store.heap) :
  exists q,
    fst (Store.mapAccountInputToQBO input h) = Store.VRef q /\
    h !! q = None /\
    Store.extends h (snd (Store.mapAccountInputToQBO input h)).
Proof.
  unfold Store.mapAccountInputToQBO.
  pose proof (store_alloc_fresh ∅ h) as Hf.
  pose proof (store_alloc_extends ∅ h) as He.
  destruct (Store.alloc ∅ h) as [q h1]. cbn [fst snd] in Hf, He |- *.
  exists q. split; [reflexivity|]. split; [exact Hf|].
  store_frame; assumption.
Qed.

(** *** The store mappers compute what the tree mappers compute *)

Lemma store_models_extends (h h' : Store.heap) v j :
  Store.models h v j -> Store.extends h h' -> Store.models h' v j.
Proof.
  intros Hm He. induction Hm as [| | | | |l o m Hl Hdom Hfields IH]; try constructor.
  eapply Store.models_obj; [apply He, Hl | exact Hdom | exact IH].
Qed.

Lemma store_models_truthy h v j :
  Store.models h v j -> Store.truthy v = truthy j.
Proof. intros Hm. destruct Hm; reflexivity. Qed.

Lemma store_models_typeof h v j :
  Store.models h v j ->
  Store.typeof_boolean v = typeof_boolean j /\
  Store.typeof_string v = typeof_string j /\
  Store.typeof_number v = typeof_number j.
Proof. intros Hm. destruct Hm; auto. Qed.

Lemma store_models_not h v j :
  Store.models h v j -> Store.models h (Store.js_not v) (js_not j).
Proof.
  intros Hm. unfold Store.js_not, js_not.
  rewrite (store_models_truthy _ _ _ Hm). constructor.
Qed.

Lemma store_related_empty h : Store.related h ∅ ∅.
Proof.
  split.
  - intros k. now rewrite !lookup_empty.
  - intros k v j Hk. now rewrite lookup_empty in Hk.
Qed.

Lemma store_related_insert h o m K v j :
  Store.related h o m ->
  Store.models h v j ->
  Store.related h (<[K := v]> o) (<[K := j]> m).
Proof.
  intros [Hdom Hfields] Hm. split.
  - intros k. destruct (decide (K = k)) as [->|Hne].
    + rewrite !lookup_insert_eq. split; discriminate.
    + rewrite !lookup_insert_ne by exact Hne. apply Hdom.
  - intros k v' j'. destruct (decide (K = k)) as [->|Hne].
    + rewrite !lookup_insert_eq. intros [= <-] [= <-]. exact Hm.
    + rewrite !lookup_insert_ne by exact Hne. apply Hfields.
Qed.

Lemma store_related_extends h h' o m :
  Store.related h o m -> Store.extends h h' -> Store.related h' o m.
Proof.
  intros [Hdom Hfields] He. split; [exact Hdom|].
  intros k v j Hv Hj. eapply store_models_extends; [eapply Hfields|]; eauto.
Qed.

(** Reading a field of a modelled value gives the modelled field. *)
Lemma store_models_read h v j k :
  Store.models h v j -> Store.models h (Store.read h v k) (get j k).
Proof.
  intros Hm. destruct Hm as [| | | | |l o m Hl Hdom Hfields]; try constructor.
  cbn [Store.read get]. rewrite Hl. unfold prop.
  destruct (o !! k) as [v|] eqn:Hv, (m !! k) as [j|] eqn:Hj; cbn [default].
  - eapply Hfields; eassumption.
  - apply Hdom in Hj. congruence.
  - apply Hdom in Hv. congruence.
  - constructor.
Qed.

Lemma store_read_extends h0 h v j k :
  Store.models h0 v j -> Store.extends h0 h ->
  Store.read h v k = Store.read h0 v k.
Proof.
  intros Hm He. destruct Hm as [| | | | |l o m Hl Hdom Hfields]; try reflexivity.
  cbn [Store.read]. now rewrite Hl, (He _ _ Hl).
Qed.

(** What the mappers read from their input, in any later store. *)
Lemma store_input_read h0 h input i k :
  Store.models h0 (Store.VRef input) (JObj i) ->
  Store.extends h0 h ->
  Store.models h0 (Store.read h (Store.VRef input) k) (prop i k).
Proof.
  intros Hm He. rewrite (store_read_extends _ _ _ _ k Hm He).
  exact (store_models_read _ _ _ k Hm).
Qed.

Lemma store_extends_delete h0 h q :
  h0 !! q = None -> Store.extends h0 h -> Store.extends h0 (delete q h).
Proof.
  intros Hq He l o Hl. rewrite lookup_delete_ne; [apply He, Hl | congruence].
Qed.

(** [q.K = v] while building. *)
Lemma store_building_assign h0 h q m K v j :
  Store.building h0 h q m ->
  Store.models (delete q h) v j ->
  Store.building h0 (Store.assign q K v h) q (<[K := j]> m).
Proof.
  intros (Hq & He & o & Ho & Hrel) Hm. split; [exact Hq|]. split.
  - now apply store_assign_preserves.
  - exists (<[K := v]> o). unfold Store.assign. split.
    + rewrite lookup_alter_eq, Ho. reflexivity.
    + rewrite delete_alter_eq. now apply store_related_insert.
Qed.

(** An object literal while building: the new object is not [q], and
    stands for the tree of its fields. *)
Lemma store_building_alloc h0 h q m o' m' :
  Store.building h0 h q m ->
  Store.related (delete q h) o' m' ->
  Store.building h0 (snd (Store.alloc o' h)) q m /\
  Store.models (delete q (snd (Store.alloc o' h)))
    (Store.VRef (fst (Store.alloc o' h))) (JObj m').
Proof.
  intros (Hq & He & o & Ho & Hrel) Hrel'.
  pose proof (store_alloc_fresh o' h) as Hfresh.
  pose proof (store_alloc_extends o' h) as Hext.
  pose proof (store_alloc_lookup o' h) as Hnew.
  destruct (Store.alloc o' h) as [a h1]. cbn [fst snd] in *.
  assert (Haq : a <> q) by congruence.
  assert (Hdel : Store.extends (delete q h) (delete q h1)).
  { intros l ol Hl. apply lookup_delete_Some in Hl as [Hne Hl].
    rewrite lookup_delete_ne by exact Hne. apply Hext, Hl. }
  split.
  - split; [exact Hq|]. split; [eapply store_extends_trans; eassumption|].
    exists o. split; [apply Hext, Ho|].
    eapply store_related_extends; eassumption.
  - destruct (store_related_extends _ _ _ _ Hrel' Hdel) as [Hdom Hfields].
    eapply Store.models_obj; [|exact Hdom|exact Hfields].
    rewrite lookup_delete_ne by congruence. exact Hnew.
Qed.

Lemma store_building_extends h0 h q m :
  Store.building h0 h q m -> Store.extends h0 (delete q h).
Proof. intros (Hq & He & _). now apply store_extends_delete. Qed.

Lemma store_building_start (h : Store.heap) :
  Store.building h (snd (Store.alloc ∅ h)) (fst (Store.alloc ∅ h)) ∅.
Proof.
  split; [apply store_alloc_fresh|]. split; [apply store_alloc_extends|].
  exists ∅. split; [apply store_alloc_lookup | apply store_related_empty].
Qed.

Lemma store_building_finish h0 h q m :
  Store.building h0 h q m -> Store.models h (Store.VRef q) (JObj m).
Proof.
  intros (Hq & He & o & Ho & Hdom & Hfields).
  eapply Store.models_obj; [exact Ho | exact Hdom |].
  intros k v j Hv Hj. eapply store_models_extends; [eapply Hfields; eassumption|].
  intros l ol Hl. now apply lookup_delete_Some in Hl as [_ Hl].
Qed.

Section Statements.
Variables (h0 : Store.heap) (input : Store.loc) (i : obj).
Hypothesis Hinput : Store.models h0 (Store.VRef input) (JObj i).

(** A guarded copy does on the store what [assign_if] does on the tree. *)
Lemma store_copy_if_refines h q m k K
    (test : Store.value -> bool) (test' : jsval -> bool)
    (f : Store.value -> Store.value) (f' : jsval -> jsval) :
  (forall v j, Store.models h0 v j -> test v = test' j) ->
  (forall v j, Store.models h0 v j -> Store.models h0 (f v) (f' j)) ->
  Store.building h0 h q m ->
  Store.building h0 (Store.copy_if test input k q K f h) q
    (assign_if (test' (prop i k)) K (f' (prop i k)) m).
Proof.
  intros Ht Hf Hb.
  pose proof (store_input_read h0 h input i k Hinput (proj1 (proj2 Hb))) as Hv.
  unfold Store.copy_if, assign_if. cbv zeta. rewrite (Ht _ _ Hv).
  destruct (test' (prop i k)); [|exact Hb].
  apply store_building_assign; [exact Hb|].
  eapply store_models_extends; [apply Hf, Hv | eapply store_building_extends, Hb].
Qed.

Lemma store_wrap_if_refines h q m k K K'
    (test : Store.value -> bool) (test' : jsval -> bool) :
  (forall v j, Store.models h0 v j -> test v = test' j) ->
  Store.building h0 h q m ->
  Store.building h0 (Store.wrap_if test input k q K K' h) q
    (assign_if (test' (prop i k)) K (wrap K' (prop i k)) m).
Proof.
  intros Ht Hb.
  pose proof (store_input_read h0 h input i k Hinput (proj1 (proj2 Hb))) as Hv.
  unfold Store.wrap_if, assign_if, wrap. cbv zeta. rewrite (Ht _ _ Hv).
  destruct (test' (prop i k)); [|exact Hb].
  destruct (store_building_alloc h0 h q m
              {[ K' := Store.read h (Store.VRef input) k ]} {[ K' := prop i k ]} Hb)
    as [Hb1 Hnew].
  { rewrite <- !insert_empty. apply store_related_insert; [apply store_related_empty|].
    eapply store_models_extends; [exact Hv | eapply store_building_extends, Hb]. }
  destruct (Store.alloc _ h) as [a h1]. cbn [fst snd] in Hb1, Hnew.
  now apply store_building_assign.
Qed.

Lemma store_address_if_refines h q m k K :
  Store.building h0 h q m ->
  Store.building h0 (Store.address_if input k q K h) q
    (assign_if (truthy (prop i k)) K (address_literal (prop i k)) m).
Proof.
  intros Hb.
  pose proof (proj1 (proj2 Hb)) as He.
  pose proof (store_input_read h0 h input i k Hinput He) as Hv.
  unfold Store.address_if, assign_if, address_literal. cbv zeta.
  rewrite (store_models_truthy _ _ _ Hv).
  destruct (truthy (prop i k)); [|exact Hb].
  assert (Hline : forall fld,
            Store.models (delete q h)
              (Store.read h (Store.read h (Store.VRef input) k) fld)
              (get (prop i k) fld)).
  { intros fld. rewrite (store_read_extends _ _ _ _ fld Hv He).
    eapply store_models_extends;
      [apply store_models_read, Hv | eapply store_building_extends, Hb]. }
  match goal with |- context [Store.alloc ?o h] =>
    destruct (store_building_alloc h0 h q m o
      (<["Country" := get (prop i k) "country"]>
      (<["PostalCode" := get (prop i k) "postalCode"]>
      (<["CountrySubDivisionCode" := get (prop i k) "countrySubDivisionCode"]>
      (<["City" := get (prop i k) "city"]>
      (<["Line2" := get (prop i k) "line2"]>
      (<["Line1" := get (prop i k) "line1"]> ∅)))))) Hb) as [Hb1 Hnew];
    [ repeat (apply store_related_insert; [|apply Hline]); apply store_related_empty
    | destruct (Store.alloc o h) as [a h1] ]
  end.
  cbn [fst snd] in Hb1, Hnew. now apply store_building_assign.
Qed.

End Statements.

Ltac store_refine Hinput :=
  repeat match goal with
    | |- Store.building _ (Store.copy_if Store.truthy _ _ _ _ Store.same _) _ _ =>
        apply (store_copy_if_refines _ _ _ Hinput _ _ _ _ _
                 Store.truthy truthy Store.same (fun j => j));
        [ apply store_models_truthy | intros ? ? Hm; exact Hm | ]
    | |- Store.building _ (Store.copy_if Store.typeof_boolean _ _ _ _ Store.same _) _ _ =>
        apply (store_copy_if_refines _ _ _ Hinput _ _ _ _ _
                 Store.typeof_boolean typeof_boolean Store.same (fun j => j));
        [ intros ? ? Hm; apply (store_models_typeof _ _ _ Hm)
        | intros ? ? Hm; exact Hm | ]
    | |- Store.building _ (Store.copy_if Store.typeof_number _ _ _ _ Store.same _) _ _ =>
        apply (store_copy_if_refines _ _ _ Hinput _ _ _ _ _
                 Store.typeof_number typeof_number Store.same (fun j => j));
        [ intros ? ? Hm; apply (store_models_typeof _ _ _ Hm)
        | intros ? ? Hm; exact Hm | ]
    | |- Store.building _ (Store.copy_if Store.typeof_boolean _ _ _ _ Store.js_not _) _ _ =>
        apply (store_copy_if_refines _ _ _ Hinput _ _ _ _ _
                 Store.typeof_boolean typeof_boolean Store.js_not js_not);
        [ intros ? ? Hm; apply (store_models_typeof _ _ _ Hm)
        | apply store_models_not | ]
    | |- Store.building _ (Store.wrap_if Store.truthy _ _ _ _ _ _) _ _ =>
        apply (store_wrap_if_refines _ _ _ Hinput _ _ _ _ _ _ Store.truthy truthy);
        [ apply store_models_truthy | ]
    | |- Store.building _ (Store.wrap_if Store.typeof_string _ _ _ _ _ _) _ _ =>
        apply (store_wrap_if_refines _ _ _ Hinput _ _ _ _ _ _
                 Store.typeof_string typeof_string);
        [ intros ? ? Hm; apply (store_models_typeof _ _ _ Hm) | ]
    | |- Store.building _ (Store.address_if _ _ _ _ _) _ _ =>
        apply (store_address_if_refines _ _ _ Hinput)
    end.

(** The object the store mapper returns stands for the tree the tree
    mapper computes from the tree of the input. *)
Lemma store_customer_refines (input : Store.loc) (h : Store.heap) (i : obj) :
  Store.models h (Store.VRef input) (JObj i) ->
  exists q,
    fst (Store.mapCustomerInputToQBO input h) = Store.VRef q /\
    Store.models (snd (Store.mapCustomerInputToQBO input h)) (Store.VRef q)
      (JObj (mapCustomerInputToQBO i)).
Proof.
  intros Hinput. unfold Store.mapCustomerInputToQBO, mapCustomerInputToQBO.
  pose proof (store_building_start h) as Hstart.
  destruct (Store.alloc ∅ h) as [q h1]. cbn [fst snd] in Hstart |- *. cbv zeta.
  exists q. split; [reflexivity|].
  apply (store_building_finish h). store_refine Hinput. exact Hstart.
Qed.

Lemma store_account_refines (input : Store.loc) (h : Store.heap) (i : obj) :
  Store.models h (Store.VRef input) (JObj i) ->
  exists q,
    fst (Store.mapAccountInputToQBO input h) = Store.VRef q /\
    Store.models (snd (Store.mapAccountInputToQBO input h)) (Store.VRef q)
      (JObj (mapAccountInputToQBO i)).
Proof.
  intros Hinput. unfold Store.mapAccountInputToQBO, mapAccountInputToQBO.
  pose proof (store_building_start h) as Hstart.
  destruct (Store.alloc ∅ h) as [q h1]. cbn [fst snd] in Hstart |- *. cbv zeta.
  exists q. split; [reflexivity|].
  apply (store_building_finish h). store_refine Hinput. exact Hstart.
Qed.

(** C10 (amended). Both mappers leave out every text field gated on
    truthiness when it holds the empty string: these are all the top-level
    text fields except the account's [taxCodeRef].  [taxCodeRef] is gated
    on [typeof ... === "string"], so any text, the empty one included, is
    written as [TaxCodeRef: { value }]; and an address that is present is
    copied line by line, empty lines included.  Run on a store, each
    mapper returns an object that did not exist before and leaves every
    object of the store, the caller's input among them, as it was; the
    new object stands for the tree computed by the tree mapper. *)
Theorem mappers_gate_and_allocate :
  (forall (input : obj) (k K : string),
     In (k, K) customer_text_fields -> prop input k = JStr "" ->
     mapCustomerInputToQBO input !! K = None) /\
  (forall (input : obj) (k K : string),
     In (k, K) account_text_fields -> prop input k = JStr "" ->
     mapAccountInputToQBO input !! K = None) /\
  (forall (input : obj) (s : string),
     prop input "taxCodeRef" = JStr s ->
     mapAccountInputToQBO input !! "TaxCodeRef" = Some (wrap "value" (JStr s))) /\
  (forall input : obj,
     (truthy (prop input "billAddr") = true ->
      mapCustomerInputToQBO input !! "BillAddr"
        = Some (address_literal (prop input "billAddr"))) /\
     (truthy (prop input "shipAddr") = true ->
      mapCustomerInputToQBO input !! "ShipAddr"
        = Some (address_literal (prop input "shipAddr")))) /\
  (forall (input : Store.loc) (h : Store.heap) (i : obj),
     Store.models h (Store.VRef input) (JObj i) ->
     exists q,
       fst (Store.mapCustomerInputToQBO input h) = Store.VRef q /\
       h !! q = None /\
       Store.extends h (snd (Store.mapCustomerInputToQBO input h)) /\
       Store.models (snd (Store.mapCustomerInputToQBO input h)) (Store.VRef q)
         (JObj (mapCustomerInputToQBO i))) /\
  (forall (input : Store.loc) (h : Store.heap) (i : obj),
     Store.models h (Store.VRef input) (JObj i) ->
     exists q,
       fst (Store.mapAccountInputToQBO input h) = Store.VRef q /\
       h !! q = None /\
       Store.extends h (snd (Store.mapAccountInputToQBO input h)) /\
       Store.models (snd (Store.mapAccountInputToQBO input h)) (Store.VRef q)
         (JObj (mapAccountInputToQBO i))).
Proof.
  split; [exact customer_text_field_omitted|].
  split; [exact account_text_field_omitted|].
  split.
  { intros input s Hs. rewrite <- Hs. apply account_taxCodeRef_kept. now rewrite Hs. }
  split; [exact customer_addresses_kept|].
  split.
  - intros input h i Hinput.
    destruct (store_customer_frame input h) as (q & Hq & Hfresh & Hext).
    destruct (store_customer_refines input h i Hinput) as (q' & Hq' & Hmodels).
    exists q. rewrite Hq in Hq'. injection Hq' as <-. auto.
  - intros input h i Hinput.
    destruct (store_account_frame input h) as (q & Hq & Hfresh & Hext).
    destruct (store_account_refines input h i Hinput) as (q' & Hq' & Hmodels).
    exists q. rewrite Hq in Hq'. injection Hq' as <-. auto.
Qed.

(** C10, as stated, fails on [taxCodeRef], a text field gated on its type:
    the empty string is written to the output; and likewise on the lines
    of an address. *)
Lemma empty_text_is_written :
  mapAccountInputToQBO {[ "taxCodeRef" := JStr "" ]}
    = {[ "TaxCodeRef" := JObj {[ "value" := JStr "" ]} ]} /\
  get (prop (mapCustomerInputToQBO
               {[ "billAddr" := JObj {[ "line1" := JStr "" ]} ]}) "BillAddr") "Line1"
    = JStr "".
Proof. split; reflexivity. Qed.

Lemma mappers_gate_and_allocate_witness :
  let input : obj := <["displayName" := JStr ""]> {[ "notes" := JStr "net 30" ]} in
  let h : Store.heap := {[ 1%positive := {[ "notes" := Store.VStr "net 30" ]} ]} in
  mapCustomerInputToQBO input !! "DisplayName" = None /\
  exists q,
    fst (Store.mapCustomerInputToQBO 1%positive h) = Store.VRef q /\
    h !! q = None /\
    Store.extends h (snd (Store.mapCustomerInputToQBO 1%positive h)).
Proof.
  cbv zeta.
  destruct mappers_gate_and_allocate as (Hcustomer & _ & _ & _ & Hstore & _).
  split.
  - apply (Hcustomer _ "displayName" "DisplayName"); [left; reflexivity | reflexivity].
  - destruct (Hstore 1%positive {[ 1%positive := {[ "notes" := Store.VStr "net 30" ]} ]}
                {[ "notes" := JStr "net 30" ]}) as (q & Hq & Hfresh & Hext & _).
    + eapply Store.models_obj.
      * apply lookup_singleton_eq.
      * intros k. destruct (decide ("notes" = k)) as [<-|Hne].
        -- rewrite !lookup_singleton_eq. split; discriminate.
        -- rewrite !lookup_singleton_ne by exact Hne. tauto.
      * intros k v j. destruct (decide ("notes" = k)) as [<-|Hne].
        -- rewrite !lookup_singleton_eq. intros [= <-] [= <-]. constructor.
        -- rewrite lookup_singleton_ne by exact Hne. discriminate.
    + exists q. auto.
Defined.

(** ** Events and traces *)

Lemma requests_app (a b : list event) :
  requests (a ++ b) = requests a ++ requests b.
Proof. unfold requests. apply omap_app. Qed.

Lemma fetches_emit_fetch (req : http_request) (w : world) :
  fetches (emit (EFetch req) w) = fetches w ++ [req].
Proof. unfold fetches, emit; simpl. now rewrite requests_app. Qed.

Lemma fetches_emit_console (line : string) (w : world) :
  fetches (emit (EConsole line) w) = fetches w.
Proof. unfold fetches, emit; simpl. rewrite requests_app; simpl. apply app_nil_r. Qed.

Section ServerProperties.
Context `{Host}.

Lemma fetches_exchanged url options resp w :
  fetches (exchanged url options resp w) =
  fetches w ++ [api_request url options (tokens w)].
Proof.
  unfold exchanged.
  now rewrite !fetches_emit_console, fetches_emit_fetch, fetches_emit_console.
Qed.

Lemma tokens_exchanged url options resp w :
  tokens (exchanged url options resp w) = tokens w.
Proof. reflexivity. Qed.

(** [doFetch], by the outcome of its HTTP call. *)
Lemma doFetch_response url options w resp :
  remote (fetches w) (api_request url options (tokens w)) = FetchOk resp ->
  doFetch url options w =
    let w' := exchanged url options resp w in
    if ok resp then parse (if String.eqb (text resp) "" then "{}" else text resp) w'
    else if status resp =? 401 then (Ok (need_refresh (text resp)), w')
    else (Throw (api_error resp), w').
Proof.
  intros Hr. unfold doFetch, bind, console, read_tokens, fetch; simpl.
  rewrite fetches_emit_console, Hr. simpl.
  destruct (ok resp); simpl; [reflexivity|].
  destruct (status resp =? 401); reflexivity.
Qed.

Lemma parse_world (s : string) (w : world) : snd (parse s w) = w.
Proof. unfold parse. destruct (JSON_parse s); reflexivity. Qed.

(** [saveTokens] on a file system that accepts writes. *)
Lemma saveTokens_writable (v : jsval) (w : world) :
  fs_writable w = true ->
  saveTokens v w =
    (Ok tt, set_creds_file (JSON_stringify_2 v)
              (if config_dir w then w else set_config_dir w)).
Proof.
  intros Hw. unfold saveTokens, bind, mkdirSync, writeFileSync, ret.
  destruct (config_dir w) eqn:Hd; simpl; rewrite ?Hw, ?Hd; simpl; rewrite ?Hw; reflexivity.
Qed.

(** [saveTokens] touches the file system only. *)
Lemma saveTokens_frame (v : jsval) (w : world) :
  tokens (snd (saveTokens v w)) = tokens w /\
  trace (snd (saveTokens v w)) = trace w.
Proof.
  unfold saveTokens, bind, mkdirSync, writeFileSync, ret.
  destruct (config_dir w) eqn:Hd, (fs_writable w) eqn:Hw; simpl;
    rewrite ?Hw, ?Hd; simpl; rewrite ?Hw; simpl; auto.
Qed.

(** [doFetch] issues exactly one HTTP call, whatever comes back, and
    leaves the bundle alone. *)
Lemma doFetch_frame url options w :
  fetches (snd (doFetch url options w)) =
    fetches w ++ [api_request url options (tokens w)] /\
  tokens (snd (doFetch url options w)) = tokens w.
Proof.
  destruct (remote (fetches w) (api_request url options (tokens w))) as [resp|] eqn:Hr.
  - rewrite (doFetch_response _ _ _ _ Hr). cbv zeta.
    destruct (ok resp); [rewrite parse_world|destruct (status resp =? 401)]; simpl;
      now rewrite fetches_exchanged.
  - unfold doFetch, bind, console, read_tokens, fetch; simpl.
    rewrite fetches_emit_console, Hr; simpl.
    now rewrite fetches_emit_fetch, fetches_emit_console.
Qed.

(** What [doFetch] returns on a 401 asks for a refresh. *)
Lemma need_refresh_truthy (t : string) :
  truthy (get (need_refresh t) "needRefresh") = true.
Proof. reflexivity. Qed.

(** [refreshTokens], by the answer of the token endpoint. *)
Lemma refreshTokens_response (w : world) (resp : response) :
  truthy (get (tokens w) "refresh_token") = true ->
  remote (fetches w) (refresh_request (tokens w)) = FetchOk resp ->
  refreshTokens w =
    let w1 := emit (EFetch (refresh_request (tokens w))) w in
    if ok resp then
      match JSON_parse (text resp) with
      | Some data =>
          let merged := JObj (spread2 (own_props (tokens w)) (own_props data)) in
          saveTokens merged (set_tokens merged w1)
      | None => (Throw (SyntaxError (text resp)), w1)
      end
    else (Throw (JsError ("Token refresh failed: " +:+ pretty (status resp) +:+
                          " - " +:+ text resp)), w1).
Proof.
  intros Ht Hr. unfold refreshTokens, bind at 1, read_tokens at 1.
  rewrite Ht. cbn [negb]. unfold bind at 1, fetch. rewrite Hr.
  destruct (ok resp); cbn [negb]; [|reflexivity].
  unfold bind at 1, parse. destruct (JSON_parse (text resp)) as [data|]; [|reflexivity].
  unfold ret, bind, read_tokens, write_tokens. cbn [tokens emit].
  now rewrite !own_props_coalesce.
Qed.

Lemma refreshTokens_no_token (w : world) :
  truthy (get (tokens w) "refresh_token") = false ->
  refreshTokens w =
    (Throw (JsError "No refresh_token available; re-authentication required."), w).
Proof.
  intros Ht. unfold refreshTokens, bind at 1, read_tokens at 1. now rewrite Ht.
Qed.

Lemma refreshTokens_transport_failure (w : world) :
  truthy (get (tokens w) "refresh_token") = true ->
  remote (fetches w) (refresh_request (tokens w)) = FetchFail ->
  refreshTokens w = (Throw FetchError, emit (EFetch (refresh_request (tokens w))) w).
Proof.
  intros Ht Hr. unfold refreshTokens, bind at 1, read_tokens at 1.
  rewrite Ht. cbn [negb]. unfold bind at 1, fetch. now rewrite Hr.
Qed.

(** [refreshTokens] issues at most one HTTP call, to the token endpoint,
    and exactly one when it succeeds. *)
Lemma refreshTokens_fetches (w : world) :
  (fetches (snd (refreshTokens w)) = fetches w /\
   exists e, fst (refreshTokens w) = Throw e) \/
  fetches (snd (refreshTokens w)) = fetches w ++ [refresh_request (tokens w)].
Proof.
  destruct (truthy (get (tokens w) "refresh_token")) eqn:Ht.
  - right.
    destruct (remote (fetches w) (refresh_request (tokens w))) as [resp|] eqn:Hr.
    + rewrite (refreshTokens_response _ _ Ht Hr). cbv zeta.
      destruct (ok resp); [|now rewrite <- fetches_emit_fetch].
      destruct (JSON_parse (text resp)); [|now rewrite <- fetches_emit_fetch].
      unfold fetches. rewrite (proj2 (saveTokens_frame _ _)).
      apply fetches_emit_fetch.
    + rewrite (refreshTokens_transport_failure _ Ht Hr). apply fetches_emit_fetch.
  - left. rewrite (refreshTokens_no_token _ Ht). simpl. eauto.
Qed.

(** [qbRequest] for an authenticated process starts with one [doFetch]. *)
Lemma qbRequest_authenticated endpoint options w :
  truthy (get (tokens w) "access_token") = true ->
  qbRequest endpoint options w =
    (let url := request_url endpoint in
     let* result := doFetch url options in
     if truthy (get result "needRefresh") then
       refreshTokens ;;
       let* result := doFetch url options in
       if truthy (get result "needRefresh") then
         throw (JsError "Unauthorized after token refresh.")
       else ret result
     else ret result) w.
Proof.
  intros Ht. unfold qbRequest, bind at 1, read_tokens at 1. now rewrite Ht.
Qed.

(** ** Token store and OAuth session *)

(** C5. [refreshTokens] invoked while the bundle has no usable
    [refresh_token] (the bundle may be [null]) throws the
    "re-authentication required" error and leaves the world as it was: no
    HTTP call is issued, to the token endpoint or elsewhere. *)
Theorem refresh_requires_refresh_token (w : world) :
  truthy (get (tokens w) "refresh_token") = false ->
  refreshTokens w =
    (Throw (JsError "No refresh_token available; re-authentication required."), w) /\
  fetches (snd (refreshTokens w)) = fetches w.
Proof.
  intros Ht. rewrite (refreshTokens_no_token _ Ht). split; reflexivity.
Qed.

(** C8. With no credentials file, [loadTokens] returns normally and leaves
    the bundle [null]; an executor call made afterwards throws "Not
    authenticated" and leaves the world as it was, so no HTTP call is
    made. *)
Theorem missing_credentials_file (w : world) (endpoint : string) (options : QbOptions) :
  creds_file w = None ->
  tokens w = JNull ->
  loadTokens w = (Ok tt, w) /\
  tokens (snd (loadTokens w)) = JNull /\
  (loadTokens ;; qbRequest endpoint options) w =
    (Throw (JsError "Not authenticated. Run auth first."), w) /\
  fetches (snd ((loadTokens ;; qbRequest endpoint options) w)) = fetches w.
Proof.
  intros Hf Ht.
  assert (Hl : loadTokens w = (Ok tt, w)) by (unfold loadTokens; now rewrite Hf).
  assert (Hq : (loadTokens ;; qbRequest endpoint options) w =
               (Throw (JsError "Not authenticated. Run auth first."), w)).
  { unfold bind at 1. rewrite Hl.
    unfold qbRequest, bind at 1, read_tokens at 1. now rewrite Ht. }
  rewrite Hl, Hq. auto.
Qed.

(** C4. When the token endpoint answers a refresh with a 2xx response
    whose body parses to [data], the bundle left in memory and written to
    the credentials file is one object [merged] in which every field of
    [data] has the value of [data], and every other field has the value it
    had in the bundle [old] held before. *)
Theorem refresh_merges_bundle (w : world) (old : obj) (resp : response) (data : jsval) :
  tokens w = JObj old ->
  truthy (prop old "refresh_token") = true ->
  remote (fetches w) (refresh_request (tokens w)) = FetchOk resp ->
  ok resp = true ->
  JSON_parse (text resp) = Some data ->
  fs_writable w = true ->
  exists merged : obj,
    fst (refreshTokens w) = Ok tt /\
    tokens (snd (refreshTokens w)) = JObj merged /\
    creds_file (snd (refreshTokens w)) = Some (JSON_stringify_2 (JObj merged)) /\
    (forall k v, own_props data !! k = Some v -> merged !! k = Some v) /\
    (forall k, own_props data !! k = None -> merged !! k = old !! k).
Proof.
  intros Hold Ht Hr Hok Hp Hw.
  assert (Ht' : truthy (get (tokens w) "refresh_token") = true) by now rewrite Hold.
  exists (spread2 old (own_props data)).
  rewrite (refreshTokens_response _ _ Ht' Hr). cbv zeta.
  rewrite Hok, Hp, Hold. cbn [own_props].
  rewrite saveTokens_writable by exact Hw.
  cbn [fst snd]. split; [reflexivity|]. split; [|split; [reflexivity|split]].
  - simpl. now destruct (config_dir w).
  - intros k v Hk. unfold spread2. now apply lookup_union_Some_l.
  - intros k Hk. unfold spread2. now apply lookup_union_r.
Qed.

(** C9. The callback handler never looks at the status of the token
    endpoint's response: whenever a code is present and the response body
    is valid JSON (whatever the status, 2xx or not), the parsed body
    becomes the bundle in memory and on disk, the success page is sent,
    the listener is closed and the promise is resolved. *)
Theorem callback_ignores_status (w : world) (code : jsval) (resp : response) (data : jsval) :
  truthy code = true ->
  remote (fetches w) (code_request code) = FetchOk resp ->
  JSON_parse (text resp) = Some data ->
  fs_writable w = true ->
  exists w',
    callback code w = (Resolved, w') /\
    tokens w' = data /\
    creds_file w' = Some (JSON_stringify_2 data) /\
    trace w' = trace w ++ [EFetch (code_request code); ESend SUCCESS_PAGE; EServerClose].
Proof.
  intros Hc Hr Hp Hw. unfold callback. rewrite Hc. cbn [negb].
  unfold bind at 1, fetch. rewrite Hr.
  unfold bind at 1, parse. rewrite Hp. unfold ret at 1.
  unfold bind at 1, write_tokens.
  unfold bind at 1. rewrite saveTokens_writable by exact Hw.
  unfold bind. eexists. split; [reflexivity|].
  cbn. rewrite <- !app_assoc.
  destruct (config_dir w); cbn; rewrite <- app_assoc; auto.
Qed.

(** ** Request executor *)

Lemma unauthorized_not_ok (resp : response) : status resp = 401 -> ok resp = false.
Proof. intros Hs. unfold ok. now rewrite Hs. Qed.

(** A final test that throws or returns does not touch the world. *)
Lemma guarded_world (m : M jsval) (e : exn) (w : world) :
  snd ((let* result := m in
        if truthy (get result "needRefresh") then throw e else ret result) w)
  = snd (m w).
Proof.
  unfold bind. destruct (m w) as [[r|e'] w']; [|reflexivity].
  destruct (truthy (get r "needRefresh")); reflexivity.
Qed.

(** [doFetch] on an answer that is neither 2xx nor 401. *)
Lemma doFetch_api_error url options w resp :
  remote (fetches w) (api_request url options (tokens w)) = FetchOk resp ->
  ok resp = false ->
  status resp <> 401 ->
  doFetch url options w = (Throw (api_error resp), exchanged url options resp w).
Proof.
  intros Hr Hok Hs. rewrite (doFetch_response _ _ _ _ Hr). cbv zeta.
  rewrite Hok. apply Z.eqb_neq in Hs. now rewrite Hs.
Qed.

(** [doFetch] on a 401. *)
Lemma doFetch_unauthorized url options w resp :
  remote (fetches w) (api_request url options (tokens w)) = FetchOk resp ->
  status resp = 401 ->
  doFetch url options w = (Ok (need_refresh (text resp)), exchanged url options resp w).
Proof.
  intros Hr Hs. rewrite (doFetch_response _ _ _ _ Hr). cbv zeta.
  rewrite (unauthorized_not_ok _ Hs), Hs. reflexivity.
Qed.

(** [qbRequest] after a first 401: the refresh, then the one retry. *)
Lemma qbRequest_unauthorized endpoint options w resp :
  truthy (get (tokens w) "access_token") = true ->
  remote (fetches w) (api_request (request_url endpoint) options (tokens w)) = FetchOk resp ->
  status resp = 401 ->
  qbRequest endpoint options w =
    (refreshTokens ;;
     let* result := doFetch (request_url endpoint) options in
     if truthy (get result "needRefresh") then
       throw (JsError "Unauthorized after token refresh.")
     else ret result) (exchanged (request_url endpoint) options resp w).
Proof.
  intros Ht Hr Hs. rewrite (qbRequest_authenticated _ _ _ Ht). cbv zeta.
  unfold bind at 1. rewrite (doFetch_unauthorized _ _ _ _ Hr Hs).
  now rewrite need_refresh_truthy.
Qed.

(** C7. The URL of the call issued by [qbRequest] is the URL built so far
    followed by the [minorversion=75] parameter, joined with [&] when the
    URL so far contains a question mark and with [?] when it does not. *)
Theorem minorversion_join (w : world) (endpoint : string) (options : QbOptions) :
  truthy (get (tokens w) "access_token") = true ->
  exists (req : http_request) (later : list http_request),
    fetches (snd (qbRequest endpoint options w)) = fetches w ++ req :: later /\
    req_url req =
      if decide ("?"%char ∈ list_ascii_of_string (base_url endpoint))
      then base_url endpoint +:+ "&minorversion=75"
      else base_url endpoint +:+ "?minorversion=75".
Proof.
  intros Ht.
  exists (api_request (request_url endpoint) options (tokens w)).
  assert (Hurl : request_url endpoint =
      if decide ("?"%char ∈ list_ascii_of_string (base_url endpoint))
      then base_url endpoint +:+ "&minorversion=75"
      else base_url endpoint +:+ "?minorversion=75").
  { unfold request_url. cbv zeta.
    destruct (includes (base_url endpoint) "?") eqn:Hi.
    - apply includes_question_mark, list_elem_of_In in Hi.
      destruct (decide _); [reflexivity | contradiction].
    - destruct (decide _) as [Hin|]; [|reflexivity].
      apply list_elem_of_In, includes_question_mark in Hin. congruence. }
  rewrite (qbRequest_authenticated _ _ _ Ht). cbv zeta.
  destruct (doFetch_frame (request_url endpoint) options w) as [Hf _].
  unfold bind at 1.
  destruct (doFetch (request_url endpoint) options w) as [[r|e] w1] eqn:Hd;
    cbn [snd] in Hf |- *.
  2:{ exists []. rewrite Hf. split; [reflexivity | exact Hurl]. }
  destruct (truthy (get r "needRefresh")).
  2:{ exists []. unfold ret. cbn [snd]. rewrite Hf. split; [reflexivity | exact Hurl]. }
  unfold bind at 1.
  destruct (refreshTokens_fetches w1) as [[Hrf _]|Hrf];
    destruct (refreshTokens w1) as [[[]|e] w2]; cbn [snd] in Hrf |- *;
    rewrite ?guarded_world, ?(proj1 (doFetch_frame _ _ _));
    rewrite Hrf, Hf, <- ?app_assoc; eexists; (split; [reflexivity | exact Hurl]).
Qed.

(** C6. An answer that is neither 2xx nor 401 makes [doFetch] throw an
    error made of the status and the raw body, after exactly one HTTP
    call.  [qbRequest] ends with that error and in that world when the
    answer comes to its first attempt, and also when it comes to the retry
    that follows a refresh; nothing a caller sequences after [qbRequest]
    runs.  No request follows the failed one. *)
Theorem api_error_not_retried (w : world) (endpoint : string) (options : QbOptions)
    (resp : response) :
  remote (fetches w) (api_request (request_url endpoint) options (tokens w)) = FetchOk resp ->
  ok resp = false ->
  status resp <> 401 ->
  let err := JsError ("QuickBooks API error: " +:+ pretty (status resp) +:+
                      " - " +:+ text resp) in
  let w' := exchanged (request_url endpoint) options resp w in
  fetches w' = fetches w ++ [api_request (request_url endpoint) options (tokens w)] /\
  doFetch (request_url endpoint) options w = (Throw err, w') /\
  (truthy (get (tokens w) "access_token") = true ->
   qbRequest endpoint options w = (Throw err, w') /\
   forall (A : Type) (k : jsval -> M A),
     (let* data := qbRequest endpoint options in k data) w = (Throw err, w')) /\
  (forall (w0 : world) (resp1 : response),
     truthy (get (tokens w0) "access_token") = true ->
     remote (fetches w0) (api_request (request_url endpoint) options (tokens w0))
       = FetchOk resp1 ->
     status resp1 = 401 ->
     refreshTokens (exchanged (request_url endpoint) options resp1 w0) = (Ok tt, w) ->
     qbRequest endpoint options w0 = (Throw err, w')).
Proof.
  intros Hr Hok Hs err w'.
  pose proof (doFetch_api_error _ _ _ _ Hr Hok Hs) as Hd. fold err w' in Hd.
  split; [apply fetches_exchanged|]. split; [exact Hd|]. split.
  - intros Ht.
    assert (Hq : qbRequest endpoint options w = (Throw err, w')).
    { rewrite (qbRequest_authenticated _ _ _ Ht). cbv zeta.
      unfold bind at 1. now rewrite Hd. }
    split; [exact Hq|]. intros A k. unfold bind. now rewrite Hq.
  - intros w0 resp1 Ht0 Hr1 Hs1 Href.
    rewrite (qbRequest_unauthorized _ _ _ _ Ht0 Hr1 Hs1).
    unfold bind at 1. rewrite Href. unfold bind at 1. now rewrite Hd.
Qed.

(** C1 (amended). After a first answer 401, [refreshTokens] runs once, in
    the world left by the first exchange.  If it throws, [qbRequest] ends
    with its error and the original request is not repeated.  If it
    succeeds, it has issued exactly one call to the token endpoint, and
    the original request is then issued exactly once more (same URL and
    options, with the refreshed bundle), so that the run consists of
    exactly three HTTP calls; a 401 in answer to the retry ends the run
    with "Unauthorized after token refresh". *)
Theorem unauthorized_refresh_once (w : world) (endpoint : string) (options : QbOptions)
    (resp1 : response) :
  truthy (get (tokens w) "access_token") = true ->
  remote (fetches w) (api_request (request_url endpoint) options (tokens w)) = FetchOk resp1 ->
  status resp1 = 401 ->
  let url := request_url endpoint in
  let req1 := api_request url options (tokens w) in
  match refreshTokens (exchanged url options resp1 w) with
  | (Throw e, w2) =>
      qbRequest endpoint options w = (Throw e, w2) /\
      (fetches w2 = fetches w ++ [req1] \/
       fetches w2 = fetches w ++ [req1; refresh_request (tokens w)])
  | (Ok _, w2) =>
      let req2 := api_request url options (tokens w2) in
      fetches w2 = fetches w ++ [req1; refresh_request (tokens w)] /\
      fetches (snd (qbRequest endpoint options w)) =
        fetches w ++ [req1; refresh_request (tokens w); req2] /\
      forall resp2 : response,
        remote (fetches w2) req2 = FetchOk resp2 ->
        status resp2 = 401 ->
        qbRequest endpoint options w =
          (Throw (JsError "Unauthorized after token refresh."),
           exchanged url options resp2 w2)
  end.
Proof.
  intros Ht Hr Hs url req1.
  pose proof (qbRequest_unauthorized _ _ _ _ Ht Hr Hs) as Hq. fold url in Hq.
  pose proof (refreshTokens_fetches (exchanged url options resp1 w)) as Hrf.
  rewrite fetches_exchanged, tokens_exchanged in Hrf. fold req1 in Hrf.
  destruct (refreshTokens (exchanged url options resp1 w)) as [[[]|e] w2] eqn:Href;
    cbn [fst snd] in Hrf.
  - assert (Hw2 : fetches w2 = fetches w ++ [req1; refresh_request (tokens w)]).
    { destruct Hrf as [[_ [e He]]|Hrf]; [discriminate|].
      rewrite Hrf, <- app_assoc. reflexivity. }
    cbv zeta. split; [exact Hw2|]. split.
    + rewrite Hq. unfold bind at 1. rewrite Href.
      rewrite guarded_world, (proj1 (doFetch_frame _ _ _)), Hw2, <- app_assoc.
      reflexivity.
    + intros resp2 Hr2 Hs2. rewrite Hq. unfold bind at 1. rewrite Href.
      unfold bind at 1. rewrite (doFetch_unauthorized _ _ _ _ Hr2 Hs2).
      now rewrite need_refresh_truthy.
  - split.
    + rewrite Hq. unfold bind at 1. now rewrite Href.
    + destruct Hrf as [[Hrf _]|Hrf]; [left; exact Hrf|right].
      rewrite Hrf, <- app_assoc. reflexivity.
Qed.

(** ** Update tools *)












(** The identifier read back from the inputs used below. *)
Lemma account_input_id (id : jsval) :
  prop (<["active" := JBool false]> {[ "accountId" := id ]}) "accountId" = id.
Proof. reflexivity. Qed.

Lemma account_input_sparse_id (id : jsval) :
  prop (<["active" := JBool false]>
        (<["sparse" := JBool true]> {[ "accountId" := id ]})) "accountId" = id.
Proof. reflexivity. Qed.

Lemma customer_input_id (id : jsval) :
  prop (<["active" := JBool false]> {[ "customerId" := id ]}) "customerId" = id.
Proof. reflexivity. Qed.

(** Rewrites the body of the write the tool performs into [b'], leaving
    the equation between the two bodies to prove. *)
Ltac same_write :=
  unfold write_step;
  match goal with
  | |- bind (qbRequest ?e (post ?b)) _ _ = bind (qbRequest ?e (post ?b')) _ _ =>
      replace b with b'; [reflexivity | symmetry]
  end.

(** C3 (amended). Let the fetch return a record with [Id] "42" and
    [SyncToken] "3".  For an account, [update_account] called with the
    patch [{ active: false }] (sparse left to its default, or given as
    [true]) and [set_account_active] called with [false] write exactly
    [{ Id: "42", SyncToken: "3", sparse: true, Active: false }]; so does
    [set_customer_active] for a customer.  [update_customer] has no
    [active] field: called with that patch it writes exactly
    [{ Id: "42", SyncToken: "3", sparse: true }]. *)
Theorem deactivation_write_body (existing id : jsval) :
  get existing "Id" = JStr "42" ->
  get existing "SyncToken" = JStr "3" ->
  let expected : obj :=
    <["Active" := JBool false]>
    (<["sparse" := JBool true]>
    (<["SyncToken" := JStr "3"]>
    (<["Id" := JStr "42"]> ∅))) in
  (forall w w1 : world,
     getAccountRaw id w = (Ok existing, w1) ->
     update_account (<["active" := JBool false]> {[ "accountId" := id ]}) w
       = write_step "account?operation=update" "Account" expected w1 /\
     update_account (<["active" := JBool false]>
                     (<["sparse" := JBool true]> {[ "accountId" := id ]})) w
       = write_step "account?operation=update" "Account" expected w1 /\
     set_account_active id (JBool false) w
       = write_step "account?operation=update" "Account" expected w1) /\
  (forall w w1 : world,
     getCustomerRaw id w = (Ok existing, w1) ->
     set_customer_active id (JBool false) w
       = write_step "customer?operation=update" "Customer" expected w1 /\
     update_customer (<["active" := JBool false]> {[ "customerId" := id ]}) w
       = write_step "customer?operation=update" "Customer"
           (delete "Active" expected) w1).
Proof.
  intros HId HSt expected. subst expected.
  assert (Hu : unusable existing = false) by (unfold unusable; now rewrite HId, HSt).
  split; intros w w1 Hf.
  - split; [|split].
    + unfold update_account. cbv zeta.
      rewrite (account_input_id id). unfold bind at 1.
      rewrite Hf, Hu. same_write.
      unfold update_body. rewrite HId, HSt. reflexivity.
    + unfold update_account. cbv zeta.
      rewrite (account_input_sparse_id id). unfold bind at 1.
      rewrite Hf, Hu. same_write.
      unfold update_body. rewrite HId, HSt. reflexivity.
    + unfold set_account_active. cbv zeta. unfold bind at 1.
      rewrite Hf, Hu. same_write.
      unfold active_body. rewrite HId, HSt. reflexivity.
  - split.
    + unfold set_customer_active. cbv zeta. unfold bind at 1.
      rewrite Hf, Hu. same_write.
      unfold active_body. rewrite HId, HSt. reflexivity.
    + unfold update_customer. cbv zeta.
      rewrite (customer_input_id id). unfold bind at 1.
      rewrite Hf, Hu. same_write.
      unfold update_body. rewrite HId, HSt. reflexivity.
Qed.

End ServerProperties.

(** *** Scenarios *)

Lemma refresh_requires_refresh_token_witness :
  let host := scripted [] [] in
  truthy (get (tokens fresh_world) "refresh_token") = false /\
  @refreshTokens host fresh_world =
    (Throw (JsError "No refresh_token available; re-authentication required."),
     fresh_world).
Proof.
  split; [reflexivity|].
  apply (@refresh_requires_refresh_token (scripted [] []) fresh_world).
  reflexivity.
Defined.

Lemma missing_credentials_file_witness :
  let host := scripted [] [] in
  @loadTokens host fresh_world = (Ok tt, fresh_world) /\
  (@loadTokens host ;; @qbRequest host "customer/42" no_options) fresh_world =
    (Throw (JsError "Not authenticated. Run auth first."), fresh_world).
Proof.
  pose proof (@missing_credentials_file (scripted [] []) fresh_world
                "customer/42" no_options eq_refl eq_refl) as (H1 & _ & H3 & _).
  split; [exact H1 | exact H3].
Defined.

Lemma refresh_merges_bundle_witness :
  let host := scripted [answer 200 "TOKENS"] [("TOKENS", rotated)] in
  let w := world_with (JObj old_bundle) in
  exists merged : obj,
    fst (@refreshTokens host w) = Ok tt /\
    tokens (snd (@refreshTokens host w)) = JObj merged /\
    creds_file (snd (@refreshTokens host w)) = Some (@JSON_stringify_2 host (JObj merged)) /\
    (forall k v, own_props rotated !! k = Some v -> merged !! k = Some v) /\
    (forall k, own_props rotated !! k = None -> merged !! k = old_bundle !! k).
Proof.
  apply (@refresh_merges_bundle
           (scripted [answer 200 "TOKENS"] [("TOKENS", rotated)])
           (world_with (JObj old_bundle)) old_bundle
           {| status := 200; text := "TOKENS" |} rotated);
    vm_compute; reflexivity.
Defined.

Lemma callback_ignores_status_witness :
  let host := scripted [answer 400 "ERROR"] [("ERROR", invalid_grant)] in
  exists w',
    @callback host (JStr "abc") fresh_world = (Resolved, w') /\
    tokens w' = invalid_grant /\
    creds_file w' = Some (@JSON_stringify_2 host invalid_grant) /\
    trace w' = trace fresh_world ++
      [EFetch (@code_request host (JStr "abc")); ESend SUCCESS_PAGE; EServerClose].
Proof.
  apply (@callback_ignores_status
           (scripted [answer 400 "ERROR"] [("ERROR", invalid_grant)])
           fresh_world (JStr "abc") {| status := 400; text := "ERROR" |} invalid_grant);
    vm_compute; reflexivity.
Defined.

Lemma minorversion_join_witness :
  let host := scripted [answer 200 "{}"] [("{}", JObj ∅)] in
  let w := world_with access_only in
  exists (req : http_request) (later : list http_request),
    fetches (snd (@qbRequest host "query?query=select" no_options w)) =
      fetches w ++ req :: later /\
    req_url req =
      "https://sandbox-quickbooks.api.intuit.com/v3/company/4620816365/query?query=select&minorversion=75".
Proof.
  exact (@minorversion_join (scripted [answer 200 "{}"] [("{}", JObj ∅)])
           (world_with access_only) "query?query=select" no_options eq_refl).
Defined.

Lemma api_error_not_retried_witness :
  let w := world_with access_only in
  let w1 := snd (@getCustomerRaw service_conflict (JStr "42") w) in
  let write := post (update_body record_42 (JBool true)
                       {[ "DisplayName" := JStr "Acme Ltd" ]}) in
  @update_customer service_conflict rename_customer_42 w =
    (Throw (JsError "QuickBooks API error: 400 - Stale Object Error"),
     @exchanged service_conflict
       (@request_url service_conflict "customer?operation=update") write
       {| status := 400; text := "Stale Object Error" |} w1) /\
  List.map req_method
    (fetches (snd (@update_customer service_conflict rename_customer_42 w)))
    = [GET; POST].
Proof.
  intros w w1 write.
  destruct (@api_error_not_retried service_conflict w1 "customer?operation=update"
              write {| status := 400; text := "Stale Object Error" |}
              eq_refl eq_refl) as (_ & _ & Hfirst & _); [cbn [status]; lia|].
  destruct (Hfirst eq_refl) as [_ Hcaller].
  split; [|reflexivity].
  exact (Hcaller tool_result
           (fun data => ret (@text_result service_conflict
                               (coalesce (get data "Customer") data)))).
Defined.

Lemma unauthorized_refresh_once_witness :
  let host := scripted [answer 401 "expired"; answer 200 "TOKENS"; answer 401 "again"]
                       [("TOKENS", rotated)] in
  let w := world_with (JObj old_bundle) in
  let url := @request_url host "customer/42" in
  let w2 := snd (@refreshTokens host
                   (@exchanged host url no_options {| status := 401; text := "expired" |} w)) in
  List.map req_url (fetches w2) = [url; TOKEN_ENDPOINT] /\
  @qbRequest host "customer/42" no_options w =
    (Throw (JsError "Unauthorized after token refresh."),
     @exchanged host url no_options {| status := 401; text := "again" |} w2).
Proof.
  intros host w url w2.
  pose proof (@unauthorized_refresh_once host w "customer/42" no_options
                {| status := 401; text := "expired" |} eq_refl eq_refl eq_refl) as Hrun.
  cbv zeta in Hrun. fold url in Hrun.
  assert (Href : @refreshTokens host
                   (@exchanged host url no_options {| status := 401; text := "expired" |} w)
                 = (Ok tt, w2)) by reflexivity.
  rewrite Href in Hrun. destruct Hrun as (_ & _ & Hlast).
  split; [reflexivity|].
  exact (Hlast {| status := 401; text := "again" |} eq_refl eq_refl).
Defined.

(** C1, as stated, fails when the refresh itself fails: here the bundle
    has no [refresh_token], the first answer is a 401, and the run ends
    after that single HTTP call: the original request is not repeated. *)
Lemma unauthorized_without_retry :
  let host := scripted [answer 401 "expired"; answer 200 "{}"] [("{}", JObj ∅)] in
  let w := world_with access_only in
  let req1 := @api_request host (@request_url host "customer/42") no_options (tokens w) in
  @remote host (fetches w) req1 = answer 401 "expired" /\
  fetches (snd (@qbRequest host "customer/42" no_options w)) = [req1] /\
  fst (@qbRequest host "customer/42" no_options w) =
    Throw (JsError "No refresh_token available; re-authentication required.").
Proof. vm_compute. auto. Qed.


Lemma deactivation_write_body_witness :
  let w := world_with access_only in
  let expected : obj :=
    <["Active" := JBool false]>
    (<["sparse" := JBool true]>
    (<["SyncToken" := JStr "3"]>
    (<["Id" := JStr "42"]> ∅))) in
  @update_account service_42 deactivate_account_42 w =
    @write_step service_42 "account?operation=update" "Account" expected
      (snd (@getAccountRaw service_42 (JStr "42") w)) /\
  List.map req_body (fetches (snd (@update_account service_42 deactivate_account_42 w)))
    = [None; Some "{sparse:true,SyncToken:3,Id:42,Active:false}"].
Proof.
  destruct (@deactivation_write_body service_42 record_42 (JStr "42") eq_refl eq_refl)
    as [Haccount _].
  cbv zeta. split; [|vm_compute; reflexivity].
  refine (proj1 (Haccount (world_with access_only) _ _)).
  vm_compute. reflexivity.
Defined.

(** C3, as stated, fails for customers: [update_customer] called with the
    patch [{ active: false }], on a customer fetched with [Id] "42" and
    [SyncToken] "3", writes a body without [Active]. *)
Lemma update_customer_drops_active :
  let w := world_with access_only in
  fst (@getCustomerRaw service_42 (JStr "42") w) = Ok record_42 /\
  get record_42 "Id" = JStr "42" /\
  get record_42 "SyncToken" = JStr "3" /\
  List.map req_body (fetches (snd (@update_customer service_42 deactivate_customer_42 w)))
    = [None; Some "{sparse:true,SyncToken:3,Id:42}"] /\
  update_body record_42 (sparse_flag deactivate_customer_42)
    (mapCustomerInputToQBO (customer_patch deactivate_customer_42)) !! "Active" = None.
Proof. vm_compute. auto 6. Qed.

(** * Further properties of the program *)

(** ** Query texts *)

Lemma append_cons (x : ascii) (a b : string) :
  String x a +:+ b = String x (a +:+ b).
Proof. reflexivity. Qed.

Lemma append_empty (a : string) : "" +:+ a = a.
Proof. reflexivity. Qed.

Lemma append_assoc (a b c : string) : (a +:+ b) +:+ c = a +:+ (b +:+ c).
Proof.
  induction a as [|x a IH]; [reflexivity|].
  now rewrite !append_cons, IH.
Qed.

Lemma esc_quote_preceded (s pre post : string) :
  esc s = pre +:+ String "039" post ->
  exists pre', pre = pre' +:+ String "092" EmptyString.
Proof.
  revert pre. induction s as [|c r IH]; intros pre Heq.
  - destruct pre; discriminate.
  - cbn [esc] in Heq. destruct (Ascii.eqb c "039") eqn:Hc.
    + destruct pre as [|a pre1]; cbn [String.append] in Heq; [discriminate|].
      injection Heq as <- Heq.
      destruct pre1 as [|b pre2]; cbn [String.append] in Heq.
      * exists EmptyString. reflexivity.
      * injection Heq as <- Heq. destruct (IH _ Heq) as [pre' ->].
        exists (String "092" (String "039" pre')). reflexivity.
    + destruct pre as [|a pre1]; cbn [String.append] in Heq.
      * injection Heq as -> _. now rewrite Ascii.eqb_refl in Hc.
      * injection Heq as <- Heq. destruct (IH _ Heq) as [pre' ->].
        exists (String c pre'). reflexivity.
Qed.

Lemma esc_length (s : string) :
  String.length (esc s) =
  (String.length s + count_occ ascii_dec (list_ascii_of_string s) "039"%char)%nat.
Proof.
  induction s as [|c r IH]; [reflexivity|].
  cbn [esc list_ascii_of_string String.length].
  destruct (Ascii.eqb_spec c "039") as [->|Hne].
  - rewrite count_occ_cons_eq by reflexivity. cbn [String.length]. rewrite IH. lia.
  - rewrite count_occ_cons_neq by exact Hne. cbn [String.length]. now rewrite IH.
Qed.

Lemma esc_without_quote (s : string) :
  ~ In "039"%char (list_ascii_of_string s) -> esc s = s.
Proof.
  induction s as [|c r IH]; [reflexivity|].
  cbn [esc list_ascii_of_string In]. intros Hnot.
  destruct (Ascii.eqb_spec c "039") as [->|Hne]; [tauto|].
  rewrite IH; [reflexivity | tauto].
Qed.

(** X1. In [esc s] every single quote comes right after a backslash; the
    text grows by one character per quote of [s]; a text without quote is
    returned as it is. *)
Theorem esc_escapes_every_quote (s : string) :
  (forall pre post : string,
     esc s = pre +:+ String "039" post ->
     exists pre', pre = pre' +:+ String "092" EmptyString) /\
  String.length (esc s) =
    (String.length s + count_occ ascii_dec (list_ascii_of_string s) "039"%char)%nat /\
  (~ In "039"%char (list_ascii_of_string s) -> esc s = s).
Proof.
  split; [intros pre post; apply esc_quote_preceded|].
  split; [apply esc_length | apply esc_without_quote].
Qed.

Lemma esc_escapes_every_quote_witness :
  esc "O'Neil" = "O\'Neil" /\
  (exists pre', String "O" (String "092" EmptyString)
                  = pre' +:+ String "092" EmptyString) /\
  esc "Acme" = "Acme".
Proof.
  destruct (esc_escapes_every_quote "O'Neil") as (Hquote & _ & _).
  destruct (esc_escapes_every_quote "Acme") as (_ & _ & Hplain).
  split; [reflexivity|]. split.
  - apply (Hquote (String "O" (String "092" EmptyString)) "Neil"). reflexivity.
  - apply Hplain. cbn. intros [H|[H|[H|[H|[]]]]]; discriminate.
Defined.



(** ** Token store *)

Section MoreProperties.
Context `{Host}.

(** X3. Saving a bundle and loading it back restores it, provided the
    file system accepts the write and [JSON.parse] reads back what
    [JSON.stringify] printed: the directory exists afterwards, the file
    holds the printed bundle, the bundle in memory is the saved one, and
    nothing else happened. *)
Theorem save_then_load (v : jsval) (w : world) :
  fs_writable w = true ->
  JSON_parse (JSON_stringify_2 v) = Some v ->
  exists w',
    (saveTokens v ;; loadTokens) w = (Ok tt, w') /\
    tokens w' = v /\
    creds_file w' = Some (JSON_stringify_2 v) /\
    config_dir w' = true /\
    trace w' = trace w.
Proof.
  intros Hw Hp. unfold bind. rewrite (saveTokens_writable _ _ Hw).
  unfold loadTokens. cbn [creds_file set_creds_file].
  unfold bind, parse. rewrite Hp. unfold ret, write_tokens.
  eexists. split; [reflexivity|]. cbn.
  destruct (config_dir w) eqn:Hd; cbn; auto.
Qed.

(** X4. A credentials file that is not JSON makes [loadTokens] throw, and
    leaves the bundle in memory as it was; whatever is sequenced after it
    does not run. *)
Theorem load_corrupt_file (w : world) (contents : string) :
  creds_file w = Some contents ->
  JSON_parse contents = None ->
  loadTokens w = (Throw (SyntaxError contents), w) /\
  forall (A : Type) (next : M A),
    (loadTokens ;; next) w = (Throw (SyntaxError contents), w).
Proof.
  intros Hf Hp.
  assert (Hl : loadTokens w = (Throw (SyntaxError contents), w)).
  { unfold loadTokens. rewrite Hf. unfold bind, parse. now rewrite Hp. }
  split; [exact Hl|]. intros A next. unfold bind. now rewrite Hl.
Qed.

(** ** OAuth session *)

(** X5. When the file system refuses the write, a refresh that the token
    endpoint accepted still replaces the bundle in memory by the merged
    one, then throws: memory holds the new tokens while the credentials
    file keeps the old contents. *)
Theorem refresh_unsaved (w : world) (resp : response) (data : jsval) :
  truthy (get (tokens w) "refresh_token") = true ->
  remote (fetches w) (refresh_request (tokens w)) = FetchOk resp ->
  ok resp = true ->
  JSON_parse (text resp) = Some data ->
  fs_writable w = false ->
  fst (refreshTokens w) = Throw FsError /\
  tokens (snd (refreshTokens w)) =
    JObj (spread2 (own_props (tokens w)) (own_props data)) /\
  creds_file (snd (refreshTokens w)) = creds_file w.
Proof.
  intros Ht Hr Hok Hp Hw.
  rewrite (refreshTokens_response _ _ Ht Hr). cbv zeta. rewrite Hok, Hp.
  unfold saveTokens, bind, mkdirSync, writeFileSync, ret.
  cbn [config_dir fs_writable set_tokens emit].
  destruct (config_dir w); cbn; rewrite Hw; cbn; auto.
Qed.

(** X6. A 401 followed by a refresh that the token endpoint rejects ends
    [qbRequest] with "Token refresh failed: <status> - <body>": the
    original request is not repeated, and the bundle in memory and the
    credentials file are as before. *)
Theorem refresh_rejected (w : world) (endpoint : string) (options : QbOptions)
    (resp1 resp2 : response) :
  truthy (get (tokens w) "access_token") = true ->
  truthy (get (tokens w) "refresh_token") = true ->
  remote (fetches w) (api_request (request_url endpoint) options (tokens w))
    = FetchOk resp1 ->
  status resp1 = 401 ->
  remote (fetches w ++ [api_request (request_url endpoint) options (tokens w)])
         (refresh_request (tokens w)) = FetchOk resp2 ->
  ok resp2 = false ->
  exists w',
    qbRequest endpoint options w =
      (Throw (JsError ("Token refresh failed: " +:+ pretty (status resp2) +:+
                       " - " +:+ text resp2)), w') /\
    fetches w' = fetches w ++ [api_request (request_url endpoint) options (tokens w);
                               refresh_request (tokens w)] /\
    tokens w' = tokens w /\
    creds_file w' = creds_file w.
Proof.
  intros Ha Ht Hr1 Hs1 Hr2 Hok2.
  rewrite (qbRequest_unauthorized _ _ _ _ Ha Hr1 Hs1).
  rewrite <- (fetches_exchanged (request_url endpoint) options resp1 w) in Hr2.
  unfold bind at 1.
  rewrite (refreshTokens_response (exchanged (request_url endpoint) options resp1 w) resp2);
    [|exact Ht|exact Hr2].
  cbv zeta. rewrite Hok2. eexists. split; [reflexivity|].
  rewrite fetches_emit_fetch, fetches_exchanged, <- app_assoc. auto.
Qed.

(** The callback handler, case by case, once a code is there. *)
Lemma callback_cases (code : jsval) (w : world) :
  truthy code = true ->
  callback code w =
    let w0 := emit (EFetch (code_request code)) w in
    match remote (fetches w) (code_request code) with
    | FetchFail => (Rejected (RejectExn FetchError), w0)
    | FetchOk resp =>
        match JSON_parse (text resp) with
        | None => (Rejected (RejectExn (SyntaxError (text resp))), w0)
        | Some data =>
            let w1 := set_tokens data w0 in
            if fs_writable w then
              (Resolved,
               emit EServerClose
                 (emit (ESend SUCCESS_PAGE)
                    (set_creds_file (JSON_stringify_2 data)
                       (if config_dir w then w1 else set_config_dir w1))))
            else (Rejected (RejectExn FsError), w1)
        end
    end.
Proof.
  intros Hc. unfold callback. rewrite Hc. cbn [negb]. cbv zeta.
  unfold bind at 1, fetch.
  destruct (remote (fetches w) (code_request code)) as [resp|]; [|reflexivity].
  unfold bind at 1, parse.
  destruct (JSON_parse (text resp)) as [data|]; [|reflexivity].
  unfold ret at 1. unfold bind at 1, write_tokens. unfold bind at 1.
  destruct (fs_writable w) eqn:Hw.
  - rewrite saveTokens_writable by exact Hw. unfold bind. reflexivity.
  - unfold saveTokens, bind, mkdirSync, writeFileSync, ret.
    cbn [config_dir fs_writable set_tokens emit].
    destruct (config_dir w); cbn; rewrite Hw; reflexivity.
Qed.

(** X7. The callback handler closes the listener and sends the success
    page exactly when it resolves the promise.  When it rejects, the
    credentials file is as before, and so is the bundle in memory unless
    the failure is the write of the file; a missing code is rejected with
    "No code" before any HTTP call.  The handler issues at most one HTTP
    call. *)
Theorem callback_outcomes (code : jsval) (w : world) :
  exists new : list event,
    trace (snd (callback code w)) = trace w ++ new /\
    (length (requests new) <= 1)%nat /\
    (fst (callback code w) = Resolved <-> In EServerClose new) /\
    (fst (callback code w) = Resolved <-> In (ESend SUCCESS_PAGE) new) /\
    (truthy code = false ->
     callback code w =
       (Rejected (RejectString "No code"), emit (ESend "No code provided") w)) /\
    (forall r, fst (callback code w) = Rejected r ->
       creds_file (snd (callback code w)) = creds_file w /\
       (r <> RejectExn FsError -> tokens (snd (callback code w)) = tokens w)).
Proof.
  destruct (truthy code) eqn:Hc.
  2:{ unfold callback. rewrite Hc. cbn [negb].
      exists [ESend "No code provided"]. cbn.
      repeat split; try discriminate; auto;
        try (intros [Hf|[]]; discriminate). }
  rewrite (callback_cases _ _ Hc).
  destruct (remote (fetches w) (code_request code)) as [resp|].
  2:{ exists [EFetch (code_request code)]. cbn.
      repeat split; try discriminate; auto;
        try (intros [Hf|[]]; discriminate). }
  destruct (JSON_parse (text resp)) as [data|].
  2:{ exists [EFetch (code_request code)]. cbn.
      repeat split; try discriminate; auto;
        try (intros [Hf|[]]; discriminate). }
  cbv zeta. destruct (fs_writable w).
  - exists [EFetch (code_request code); ESend SUCCESS_PAGE; EServerClose].
    destruct (config_dir w); cbn; rewrite <- !app_assoc; cbn;
      repeat split; try discriminate; auto.
  - exists [EFetch (code_request code)]. cbn.
    repeat split; try discriminate; auto;
      try (intros [Hf|[]]; discriminate).
    intros Hne. exfalso. apply Hne. congruence.
Qed.

(** ** Request executor *)

Lemma request_url_not_token (endpoint : string) :
  request_url endpoint <> TOKEN_ENDPOINT.
Proof.
  unfold request_url, base_url, QB_BASE, TOKEN_ENDPOINT. cbv zeta.
  rewrite !append_assoc, !append_cons. discriminate.
Qed.

Lemma api_request_authorization url options tk :
  default ∅ (headers options) !! "Authorization" = None ->
  req_headers (api_request url options tk) !! "Authorization"
    = Some ("Bearer " +:+ js_to_string (get tk "access_token")).
Proof.
  intros Hc. unfold api_request. cbn [req_headers].
  rewrite lookup_union_r by exact Hc.
  rewrite lookup_union_r.
  - rewrite lookup_insert_ne by discriminate. apply lookup_insert_eq.
  - destruct (truthy (body options)); [now apply lookup_singleton_ne | apply lookup_empty].
Qed.

(** X8. An answer 2xx is parsed and returned after exactly one HTTP call,
    an empty body being read as [{}]; a body that is not JSON makes
    [qbRequest] throw the parse error, without retry.  (A parsed body with
    a truthy [needRefresh] field is the subject of the next property.) *)
Theorem ok_answer (w : world) (endpoint : string) (options : QbOptions) (resp : response) :
  truthy (get (tokens w) "access_token") = true ->
  remote (fetches w) (api_request (request_url endpoint) options (tokens w))
    = FetchOk resp ->
  ok resp = true ->
  let source := if String.eqb (text resp) "" then "{}" else text resp in
  let w' := exchanged (request_url endpoint) options resp w in
  fetches w' = fetches w ++ [api_request (request_url endpoint) options (tokens w)] /\
  match JSON_parse source with
  | Some v =>
      truthy (get v "needRefresh") = false ->
      qbRequest endpoint options w = (Ok v, w')
  | None => qbRequest endpoint options w = (Throw (SyntaxError source), w')
  end.
Proof.
  intros Ha Hr Hok source w'. split; [apply fetches_exchanged|].
  assert (Hd : doFetch (request_url endpoint) options w = parse source w').
  { rewrite (doFetch_response _ _ _ _ Hr). cbv zeta. now rewrite Hok. }
  unfold parse in Hd.
  destruct (JSON_parse source) as [v|]; [intros Hn|];
    rewrite (qbRequest_authenticated _ _ _ Ha); cbv zeta;
    unfold bind at 1; rewrite Hd; unfold ret at 1, throw at 1;
    [now rewrite Hn | reflexivity].
Qed.

(** X9. [qbRequest] tells a 401 from a parsed answer by the [needRefresh]
    field alone: an answer 2xx whose body has a truthy [needRefresh] field
    is handled as a 401.  The refresh runs, and with no [refresh_token]
    the request that the service accepted ends in "re-authentication
    required". *)
Theorem ok_answer_taken_for_unauthorized (w : world) (endpoint : string)
    (options : QbOptions) (resp : response) (v : jsval) :
  truthy (get (tokens w) "access_token") = true ->
  remote (fetches w) (api_request (request_url endpoint) options (tokens w))
    = FetchOk resp ->
  ok resp = true ->
  JSON_parse (if String.eqb (text resp) "" then "{}" else text resp) = Some v ->
  truthy (get v "needRefresh") = true ->
  let w' := exchanged (request_url endpoint) options resp w in
  qbRequest endpoint options w =
    (refreshTokens ;;
     let* result := doFetch (request_url endpoint) options in
     if truthy (get result "needRefresh") then
       throw (JsError "Unauthorized after token refresh.")
     else ret result) w' /\
  (truthy (get (tokens w) "refresh_token") = false ->
   qbRequest endpoint options w =
     (Throw (JsError "No refresh_token available; re-authentication required."), w')).
Proof.
  intros Ha Hr Hok Hp Hn w'.
  assert (Hq : qbRequest endpoint options w =
    (refreshTokens ;;
     let* result := doFetch (request_url endpoint) options in
     if truthy (get result "needRefresh") then
       throw (JsError "Unauthorized after token refresh.")
     else ret result) w').
  { rewrite (qbRequest_authenticated _ _ _ Ha). cbv zeta.
    unfold bind at 1. rewrite (doFetch_response _ _ _ _ Hr). cbv zeta.
    rewrite Hok. unfold parse. rewrite Hp. unfold ret at 1. now rewrite Hn. }
  split; [exact Hq|]. intros Ht. rewrite Hq. unfold bind at 1.
  now rewrite (refreshTokens_no_token w') by exact Ht.
Qed.

(** The world a successful refresh leaves. *)
Lemma refreshed_world (w : world) (resp : response) (data : jsval) :
  truthy (get (tokens w) "refresh_token") = true ->
  remote (fetches w) (refresh_request (tokens w)) = FetchOk resp ->
  ok resp = true ->
  JSON_parse (text resp) = Some data ->
  fs_writable w = true ->
  exists w2,
    refreshTokens w = (Ok tt, w2) /\
    fetches w2 = fetches w ++ [refresh_request (tokens w)] /\
    tokens w2 = JObj (spread2 (own_props (tokens w)) (own_props data)).
Proof.
  intros Ht Hr Hok Hp Hw.
  rewrite (refreshTokens_response _ _ Ht Hr). cbv zeta. rewrite Hok, Hp.
  rewrite saveTokens_writable by exact Hw.
  eexists. split; [reflexivity|].
  destruct (config_dir _); cbn; unfold fetches; cbn;
    rewrite requests_app; cbn; auto.
Qed.

(** X10. After a 401 and a successful refresh whose answer carries an
    [access_token], the retried request is the original one (same URL,
    method and body) and, unless the caller set its own [Authorization]
    header, it carries the new token as bearer. *)
Theorem retry_carries_refreshed_token (w : world) (endpoint : string)
    (options : QbOptions) (resp1 resp2 : response) (data token : jsval) :
  truthy (get (tokens w) "access_token") = true ->
  truthy (get (tokens w) "refresh_token") = true ->
  remote (fetches w) (api_request (request_url endpoint) options (tokens w))
    = FetchOk resp1 ->
  status resp1 = 401 ->
  remote (fetches w ++ [api_request (request_url endpoint) options (tokens w)])
         (refresh_request (tokens w)) = FetchOk resp2 ->
  ok resp2 = true ->
  JSON_parse (text resp2) = Some data ->
  own_props data !! "access_token" = Some token ->
  fs_writable w = true ->
  default ∅ (headers options) !! "Authorization" = None ->
  exists req2,
    fetches (snd (qbRequest endpoint options w)) =
      fetches w ++ [api_request (request_url endpoint) options (tokens w);
                    refresh_request (tokens w); req2] /\
    req_url req2 = request_url endpoint /\
    req_method req2 = default GET (method options) /\
    req_body req2 = req_body (api_request (request_url endpoint) options (tokens w)) /\
    req_headers req2 !! "Authorization" = Some ("Bearer " +:+ js_to_string token).
Proof.
  intros Ha Ht Hr1 Hs1 Hr2 Hok2 Hp Htok Hw Hc.
  set (url := request_url endpoint) in *.
  set (w1 := exchanged url options resp1 w).
  set (merged := JObj (spread2 (own_props (tokens w)) (own_props data))).
  rewrite <- (fetches_exchanged url options resp1 w) in Hr2.
  destruct (refreshed_world w1 resp2 data Ht Hr2 Hok2 Hp Hw) as (w2 & Href & Hf2 & Ht2).
  fold merged in Ht2. unfold w1 in Hf2. rewrite fetches_exchanged, <- app_assoc in Hf2.
  rewrite (qbRequest_unauthorized _ _ _ _ Ha Hr1 Hs1). fold url w1.
  unfold bind at 1. rewrite Href. rewrite guarded_world.
  destruct (doFetch_frame url options w2) as [Hf _].
  exists (api_request url options (tokens w2)). rewrite Hf, Hf2, <- app_assoc.
  split; [reflexivity|]. split; [reflexivity|]. split; [reflexivity|].
  split; [reflexivity|].
  rewrite api_request_authorization by exact Hc. do 2 f_equal.
  rewrite Ht2. unfold merged. cbn [get]. unfold prop, spread2.
  now rewrite (lookup_union_Some_l _ _ _ _ Htok).
Qed.

(** X11. What [doFetch] sends: one call to the given URL with the given
    method ([GET] by default); every header the caller supplies, as
    supplied; and, for the names the caller leaves out, the bearer token
    of the bundle, [Accept: application/json] and, only when there is a
    truthy body, [Content-Type: application/json] with the body
    serialized.  A falsy body is not sent. *)
Theorem request_defaults_and_overrides (w : world) (url : string) (options : QbOptions) :
  let caller := default ∅ (headers options) in
  exists req,
    fetches (snd (doFetch url options w)) = fetches w ++ [req] /\
    req_url req = url /\
    req_method req = default GET (method options) /\
    req_body req = (if truthy (body options)
                    then Some (JSON_stringify (body options)) else None) /\
    (forall k v, caller !! k = Some v -> req_headers req !! k = Some v) /\
    (caller !! "Authorization" = None ->
     req_headers req !! "Authorization"
       = Some ("Bearer " +:+ js_to_string (get (tokens w) "access_token"))) /\
    (caller !! "Accept" = None ->
     req_headers req !! "Accept" = Some "application/json") /\
    (caller !! "Content-Type" = None ->
     req_headers req !! "Content-Type"
       = if truthy (body options) then Some "application/json" else None).
Proof.
  intros caller. exists (api_request url options (tokens w)).
  split; [apply doFetch_frame|]. split; [reflexivity|]. split; [reflexivity|].
  split; [reflexivity|]. unfold api_request. cbn [req_headers]. fold caller.
  split; [|split; [|split]].
  - intros k v Hk. now apply lookup_union_Some_l.
  - intros Hc. apply (api_request_authorization url options (tokens w) Hc).
  - intros Hc. rewrite lookup_union_r by exact Hc.
    rewrite lookup_union_r; [apply lookup_insert_eq|].
    destruct (truthy (body options)); [now apply lookup_singleton_ne | apply lookup_empty].
  - intros Hc. rewrite lookup_union_r by exact Hc.
    destruct (truthy (body options)).
    + apply lookup_union_Some_l, lookup_singleton_eq.
    + rewrite lookup_union_r by apply lookup_empty.
      rewrite !lookup_insert_ne by discriminate. apply lookup_empty.
Qed.

(** Settles the shape and the counts of an explicit list of calls. *)
Ltac footprint Hcount :=
  split; [split; intros; discriminate|];
  split; [first [ left; reflexivity
                | right; left; reflexivity
                | right; right; left; reflexivity
                | right; right; right; eexists; reflexivity ]|];
  split; [cbn [length]; lia|];
  repeat first [ rewrite Hcount
               | rewrite filter_cons_True by reflexivity
               | rewrite filter_nil ];
  cbn [length]; lia.

(** X12. The HTTP calls of one run of [qbRequest], in every world and
    against every remote: none (exactly when the process holds no access
    token); or the request; or the request and one token call; or the
    request, one token call and the request again.  So a run issues at
    most three calls, at most one of them to the token endpoint, which is
    never the first. *)
Theorem qbRequest_footprint (w : world) (endpoint : string) (options : QbOptions) :
  let url := request_url endpoint in
  let req1 := api_request url options (tokens w) in
  let token_call := refresh_request (tokens w) in
  exists new,
    fetches (snd (qbRequest endpoint options w)) = fetches w ++ new /\
    (new = [] <-> truthy (get (tokens w) "access_token") = false) /\
    (new = [] \/ new = [req1] \/ new = [req1; token_call] \/
     exists tk, new = [req1; token_call; api_request url options tk]) /\
    (length new <= 3)%nat /\
    (length (filter (fun r => req_url r = TOKEN_ENDPOINT) new) <= 1)%nat.
Proof.
  intros url req1 token_call.
  assert (Hurl : url <> TOKEN_ENDPOINT) by apply request_url_not_token.
  assert (Hcount : forall tk r, filter (fun r => req_url r = TOKEN_ENDPOINT)
                      (api_request url options tk :: r)
                    = filter (fun r => req_url r = TOKEN_ENDPOINT) r).
  { intros tk r. now rewrite filter_cons_False. }
  destruct (truthy (get (tokens w) "access_token")) eqn:Ha.
  2:{ exists []. unfold qbRequest, bind at 1, read_tokens at 1. rewrite Ha.
      cbn [snd]. unfold throw. cbn [snd]. rewrite app_nil_r.
      split; [reflexivity|]. split; [tauto|]. split; [left; reflexivity|].
      split; [cbn [length]; lia|]. rewrite filter_nil. cbn [length]. lia. }
  rewrite (qbRequest_authenticated _ _ _ Ha). cbv zeta. fold url.
  destruct (doFetch_frame url options w) as [Hf Htk]. fold req1 in Hf.
  unfold bind at 1.
  destruct (doFetch url options w) as [[r|e] w1] eqn:Hd; cbn [snd] in Hf, Htk |- *.
  2:{ exists [req1]. split; [exact Hf|]. unfold req1. footprint Hcount. }
  destruct (truthy (get r "needRefresh")).
  2:{ exists [req1]. unfold ret. cbn [snd]. split; [exact Hf|].
      unfold req1. footprint Hcount. }
  unfold bind at 1.
  destruct (refreshTokens_fetches w1) as [[Hrf [e He]]|Hrf]; rewrite ?Htk in Hrf;
    fold token_call in Hrf;
    destruct (refreshTokens w1) as [[[]|e'] w2]; cbn [fst snd] in *;
    try discriminate.
  - exists [req1]. rewrite Hrf, Hf. split; [reflexivity|].
    unfold req1. footprint Hcount.
  - rewrite guarded_world, (proj1 (doFetch_frame _ _ _)), Hrf, Hf, <- !app_assoc.
    eexists. split; [reflexivity|]. cbn [app]. unfold req1, token_call.
    footprint Hcount.
  - rewrite Hrf, Hf, <- !app_assoc. eexists. split; [reflexivity|].
    cbn [app]. unfold req1, token_call. footprint Hcount.
Qed.

(** ** Query, read and create tools *)

Lemma includes_append_r (a b sub : string) :
  includes b sub = true -> includes (a +:+ b) sub = true.
Proof.
  intros Hb. induction a as [|c a IH]; [exact Hb|].
  rewrite append_cons. cbn [includes]. rewrite IH. apply orb_true_r.
Qed.

Lemma query_url (q : string) :
  request_url ("query?query=" +:+ q)
  = QB_BASE +:+ "/" +:+ REALM_ID +:+ "/query?query=" +:+ q +:+ "&minorversion=75".
Proof.
  unfold request_url. cbv zeta.
  assert (Hi : includes (base_url ("query?query=" +:+ q)) "?" = true).
  { unfold base_url. do 3 apply includes_append_r.
    apply includes_question_mark.
    repeat (rewrite ?append_cons, ?append_empty; cbn [list_ascii_of_string In]).
    auto 10. }
  rewrite Hi. unfold base_url. rewrite !append_assoc. reflexivity.
Qed.

(** The first call of [qbRequest] in an authenticated process. *)
Lemma qbRequest_first_call endpoint options w :
  truthy (get (tokens w) "access_token") = true ->
  exists later,
    fetches (snd (qbRequest endpoint options w)) =
      fetches w ++ api_request (request_url endpoint) options (tokens w) :: later.
Proof.
  intros Ha. rewrite (qbRequest_authenticated _ _ _ Ha). cbv zeta.
  destruct (doFetch_frame (request_url endpoint) options w) as [Hf _].
  unfold bind at 1.
  destruct (doFetch (request_url endpoint) options w) as [[r|e] w1];
    cbn [snd] in Hf |- *; [|exists []; exact Hf].
  destruct (truthy (get r "needRefresh")); [|exists []; exact Hf].
  unfold bind at 1.
  destruct (refreshTokens_fetches w1) as [[Hrf _]|Hrf];
    destruct (refreshTokens w1) as [[[]|e] w2]; cbn [snd] in Hrf |- *;
    rewrite ?guarded_world, ?(proj1 (doFetch_frame _ _ _));
    rewrite Hrf, Hf, <- ?app_assoc; eexists; reflexivity.
Qed.

(** X13. Whatever the query text, [qbQuery] reads: its call is a [GET]
    without body, to the [query] resource with the URL-encoded text, and
    the version parameter is joined with [&]. *)
Theorem qbQuery_request (w : world) (sql : string) :
  truthy (get (tokens w) "access_token") = true ->
  exists req later,
    fetches (snd (qbQuery sql w)) = fetches w ++ req :: later /\
    req_url req = QB_BASE +:+ "/" +:+ REALM_ID +:+ "/query?query=" +:+
                  encodeURIComponent sql +:+ "&minorversion=75" /\
    req_method req = GET /\
    req_body req = None.
Proof.
  intros Ha. unfold qbQuery. cbv zeta.
  destruct (qbRequest_first_call ("query?query=" +:+ encodeURIComponent sql)
              {| method := Some GET; body := JUndef; headers := None |} w Ha)
    as [later Hl].
  eexists. exists later. split; [exact Hl|].
  cbn [req_url req_method req_body api_request method body truthy default].
  split; [apply query_url | auto].
Qed.

(** [qbRequest] on an answer 2xx whose parsed body does not ask for a
    refresh. *)
Lemma qbRequest_returns endpoint options w resp v :
  truthy (get (tokens w) "access_token") = true ->
  remote (fetches w) (api_request (request_url endpoint) options (tokens w))
    = FetchOk resp ->
  ok resp = true ->
  JSON_parse (if String.eqb (text resp) "" then "{}" else text resp) = Some v ->
  truthy (get v "needRefresh") = false ->
  qbRequest endpoint options w = (Ok v, exchanged (request_url endpoint) options resp w).
Proof.
  intros Ha Hr Hok Hp Hn. rewrite (qbRequest_authenticated _ _ _ Ha). cbv zeta.
  unfold bind at 1. rewrite (doFetch_response _ _ _ _ Hr). cbv zeta.
  rewrite Hok. unfold parse. rewrite Hp. unfold ret at 1. now rewrite Hn.
Qed.

(** X14. The lookup by exact display name asks for
    [DisplayName = '<escaped name>'] and returns the first row of the
    answer, whatever follows it; it returns [null] when the answer has no
    rows. *)
Theorem display_name_lookup (w : world) (name : string) (resp : response) (data : jsval) :
  let read := {| method := Some GET; body := JUndef; headers := None |} in
  let endpoint :=
    "query?query=" +:+
    encodeURIComponent ("SELECT * FROM Customer WHERE DisplayName = '" +:+
                        esc name +:+ "'") in
  truthy (get (tokens w) "access_token") = true ->
  remote (fetches w) (api_request (request_url endpoint) read (tokens w)) = FetchOk resp ->
  ok resp = true ->
  JSON_parse (if String.eqb (text resp) "" then "{}" else text resp) = Some data ->
  truthy (get data "needRefresh") = false ->
  let w' := exchanged (request_url endpoint) read resp w in
  let found := get (get data "QueryResponse") "Customer" in
  (forall first others, found = JArr (first :: others) -> nullish first = false ->
     get_customer_by_display_name name w = (Ok (text_result first), w')) /\
  (nullish found = true \/ found = JArr [] ->
     get_customer_by_display_name name w = (Ok (text_result JNull), w')).
Proof.
  intros read endpoint Ha Hr Hok Hp Hn w' found.
  assert (Hrun : get_customer_by_display_name name w =
            (Ok (text_result (coalesce (first_element (rows data "Customer")) JNull)), w')).
  { unfold get_customer_by_display_name, qbQuery. cbv zeta. fold read endpoint.
    unfold bind. now rewrite (qbRequest_returns _ _ _ _ _ Ha Hr Hok Hp Hn). }
  rewrite Hrun. unfold rows. fold found. split.
  - intros first others Hf Hfirst. rewrite Hf. cbn [coalesce nullish first_element].
    unfold coalesce. now rewrite Hfirst.
  - intros [Hnull| ->]; [|reflexivity].
    unfold coalesce at 2. rewrite Hnull. reflexivity.
Qed.

Lemma mapCustomer_known (input : obj) (K : string) :
  ~ In K customer_output_fields -> mapCustomerInputToQBO input !! K = None.
Proof.
  intros Hnot. unfold mapCustomerInputToQBO. cbv zeta.
  rewrite !lookup_assign_if_ne
    by (intros <-; apply Hnot; cbn [In customer_output_fields]; tauto).
  apply lookup_empty.
Qed.

Lemma mapAccount_known (input : obj) (K : string) :
  ~ In K account_output_fields -> mapAccountInputToQBO input !! K = None.
Proof.
  intros Hnot. unfold mapAccountInputToQBO. cbv zeta.
  rewrite !lookup_assign_if_ne
    by (intros <-; apply Hnot; cbn [In account_output_fields]; tauto).
  apply lookup_empty.
Qed.

(** X15. The mappers only ever set the properties they know: whatever the
    input holds, the output has no property outside the fifteen customer
    properties (thirteen for an account).  So a create body never carries
    [Id] or [SyncToken], and a sparse update touches no other field. *)
Theorem mappers_emit_known_fields (input : obj) (K : string) :
  (is_Some (mapCustomerInputToQBO input !! K) -> In K customer_output_fields) /\
  (is_Some (mapAccountInputToQBO input !! K) -> In K account_output_fields).
Proof.
  split; intros [v Hv].
  - destruct (In_dec string_dec K customer_output_fields) as [Hin|Hnot]; [exact Hin|].
    rewrite (mapCustomer_known _ _ Hnot) in Hv. discriminate.
  - destruct (In_dec string_dec K account_output_fields) as [Hin|Hnot]; [exact Hin|].
    rewrite (mapAccount_known _ _ Hnot) in Hv. discriminate.
Qed.

(** X16. Creating a customer is one [POST] to the [customer] resource, with
    no read before it; the body is the mapped input, serialized; the tool
    returns the [Customer] of the answer, or the whole answer when it has
    none. *)
Theorem create_customer_posts_once (w : world) (input : obj) (resp : response)
    (data : jsval) :
  let write := post (mapCustomerInputToQBO input) in
  truthy (get (tokens w) "access_token") = true ->
  remote (fetches w) (api_request (request_url "customer") write (tokens w)) = FetchOk resp ->
  ok resp = true ->
  JSON_parse (if String.eqb (text resp) "" then "{}" else text resp) = Some data ->
  truthy (get data "needRefresh") = false ->
  exists req w',
    create_customer input w =
      (Ok (text_result (coalesce (get data "Customer") data)), w') /\
    fetches w' = fetches w ++ [req] /\
    req_method req = POST /\
    req_body req = Some (JSON_stringify (JObj (mapCustomerInputToQBO input))) /\
    req_headers req !! "Content-Type" = Some "application/json".
Proof.
  intros write Ha Hr Hok Hp Hn.
  exists (api_request (request_url "customer") write (tokens w)).
  exists (exchanged (request_url "customer") write resp w).
  split.
  - unfold create_customer. cbv zeta. fold write. unfold bind.
    now rewrite (qbRequest_returns _ _ _ _ _ Ha Hr Hok Hp Hn).
  - split; [apply fetches_exchanged|]. split; [reflexivity|]. split; [reflexivity|].
    unfold api_request, write, post. cbn [req_headers headers body truthy default].
    rewrite lookup_union_r by apply lookup_empty.
    apply lookup_union_Some_l, lookup_singleton_eq.
Qed.

(** X17. Setting the activity of an account is the sparse update of its
    [active] field: for a boolean [active], [set_account_active] and
    [update_account] with the patch [{ active }] (sparse left out, or
    given as [true]) behave alike in every world, against every remote. *)
Theorem set_account_active_is_update (accountId : jsval) (active : bool) (w : world) :
  set_account_active accountId (JBool active) w =
    update_account (<["active" := JBool active]> {[ "accountId" := accountId ]}) w /\
  set_account_active accountId (JBool active) w =
    update_account (<["active" := JBool active]>
                    (<["sparse" := JBool true]> {[ "accountId" := accountId ]})) w.
Proof.
  assert (Hbody : forall existing input,
    input = <["active" := JBool active]> {[ "accountId" := accountId ]} \/
    input = <["active" := JBool active]>
            (<["sparse" := JBool true]> {[ "accountId" := accountId ]}) ->
    prop input "accountId" = accountId /\
    update_body existing (with_default (prop input "sparse") (JBool true))
      (mapAccountInputToQBO (delete "sparse" (delete "accountId" input)))
    = active_body existing (JBool active)).
  { intros existing input [-> | ->]; split; reflexivity. }
  split; unfold set_account_active, update_account; cbv zeta.
  - destruct (Hbody JNull _ (or_introl eq_refl)) as [-> _]. unfold bind.
    destruct (getAccountRaw accountId w) as [[existing|e] w1]; [|reflexivity].
    destruct (unusable existing); [reflexivity|].
    now rewrite (proj2 (Hbody existing _ (or_introl eq_refl))).
  - destruct (Hbody JNull _ (or_intror eq_refl)) as [-> _]. unfold bind.
    destruct (getAccountRaw accountId w) as [[existing|e] w1]; [|reflexivity].
    destruct (unusable existing); [reflexivity|].
    now rewrite (proj2 (Hbody existing _ (or_intror eq_refl))).
Qed.

End MoreProperties.

(** X18. The write body of [update_customer] and [update_account] carries
    [sparse: true] when the input leaves [sparse] out or gives a truthy
    value, and no [sparse] property at all when the input says
    [sparse: false]: the update is then a full replacement. *)
Theorem sparse_flag_in_body (existing : jsval) (input : obj) :
  let customer := update_body existing (sparse_flag input)
                    (mapCustomerInputToQBO (customer_patch input)) in
  let account := update_body existing (sparse_flag input)
                   (mapAccountInputToQBO (account_patch input)) in
  (prop input "sparse" = JUndef \/ truthy (prop input "sparse") = true ->
   customer !! "sparse" = Some (JBool true) /\ account !! "sparse" = Some (JBool true)) /\
  (prop input "sparse" = JBool false ->
   customer !! "sparse" = None /\ account !! "sparse" = None).
Proof.
  cbv zeta. unfold update_body, spread2, sparse_flag, with_default.
  split.
  - intros Hs.
    assert (Ht : truthy (if is_undefined (prop input "sparse")
                         then JBool true else prop input "sparse") = true).
    { destruct Hs as [-> | Hs]; [reflexivity|].
      now destruct (prop input "sparse"). }
    rewrite Ht. split.
    + rewrite lookup_union_r by (apply mapCustomer_known; cbn; intuition discriminate).
      apply lookup_union_Some_l, lookup_singleton_eq.
    + rewrite lookup_union_r by (apply mapAccount_known; cbn; intuition discriminate).
      apply lookup_union_Some_l, lookup_singleton_eq.
  - intros ->. cbn [is_undefined truthy]. split.
    + rewrite lookup_union_r by (apply mapCustomer_known; cbn; intuition discriminate).
      rewrite lookup_union_r by apply lookup_empty.
      now rewrite !lookup_insert_ne by discriminate.
    + rewrite lookup_union_r by (apply mapAccount_known; cbn; intuition discriminate).
      rewrite lookup_union_r by apply lookup_empty.
      now rewrite !lookup_insert_ne by discriminate.
Qed.

(** *** Scenarios *)

Lemma save_then_load_witness :
  exists w',
    (@saveTokens reading_back access_only ;; @loadTokens reading_back) fresh_world
      = (Ok tt, w') /\
    tokens w' = access_only /\
    creds_file w' = Some (@JSON_stringify_2 reading_back access_only) /\
    config_dir w' = true /\
    trace w' = trace fresh_world.
Proof.
  exact (@save_then_load reading_back access_only fresh_world eq_refl eq_refl).
Defined.

Lemma load_corrupt_file_witness :
  @loadTokens reading_back (world_with JNull)
    = (Throw (SyntaxError "saved"), world_with JNull).
Proof.
  exact (proj1 (@load_corrupt_file reading_back (world_with JNull) "saved"
                  eq_refl eq_refl)).
Defined.

Lemma refresh_unsaved_witness :
  let host := scripted [answer 200 "TOKENS"] [("TOKENS", rotated)] in
  let w := read_only_world (JObj old_bundle) in
  fst (@refreshTokens host w) = Throw FsError /\
  tokens (snd (@refreshTokens host w)) =
    JObj (spread2 (own_props (tokens w)) (own_props rotated)) /\
  creds_file (snd (@refreshTokens host w)) = Some "saved".
Proof.
  exact (@refresh_unsaved (scripted [answer 200 "TOKENS"] [("TOKENS", rotated)])
           (read_only_world (JObj old_bundle)) {| status := 200; text := "TOKENS" |}
           rotated eq_refl eq_refl eq_refl eq_refl eq_refl).
Defined.

Lemma refresh_rejected_witness :
  let w := world_with (JObj old_bundle) in
  exists w',
    @qbRequest rejecting "customer/42" no_options w =
      (Throw (JsError "Token refresh failed: 400 - invalid_grant"), w') /\
    fetches w' = fetches w ++
      [@api_request rejecting (@request_url rejecting "customer/42") no_options (tokens w);
       @refresh_request rejecting (tokens w)] /\
    tokens w' = tokens w /\
    creds_file w' = creds_file w.
Proof.
  exact (@refresh_rejected rejecting (world_with (JObj old_bundle)) "customer/42"
           no_options {| status := 401; text := "expired" |}
           {| status := 400; text := "invalid_grant" |}
           eq_refl eq_refl eq_refl eq_refl eq_refl eq_refl).
Defined.

Lemma callback_outcomes_witness :
  @callback reading_back JUndef fresh_world =
    (Rejected (RejectString "No code"), emit (ESend "No code provided") fresh_world).
Proof.
  destruct (@callback_outcomes reading_back JUndef fresh_world)
    as (new & _ & _ & _ & _ & Hnone & _).
  exact (Hnone eq_refl).
Defined.

Lemma ok_answer_witness :
  let w := world_with access_only in
  @qbRequest silent "customer/42" no_options w =
    (Ok (JObj ∅),
     @exchanged silent (@request_url silent "customer/42") no_options
       {| status := 200; text := "" |} w).
Proof.
  exact (proj2 (@ok_answer silent (world_with access_only) "customer/42" no_options
                  {| status := 200; text := "" |} eq_refl eq_refl eq_refl) eq_refl).
Defined.

Lemma ok_answer_taken_for_unauthorized_witness :
  let w := world_with access_only in
  @qbRequest asking "customer/42" no_options w =
    (Throw (JsError "No refresh_token available; re-authentication required."),
     @exchanged asking (@request_url asking "customer/42") no_options
       {| status := 200; text := "ASK" |} w).
Proof.
  exact (proj2 (@ok_answer_taken_for_unauthorized asking (world_with access_only)
                  "customer/42" no_options {| status := 200; text := "ASK" |}
                  (JObj {[ "needRefresh" := JBool true ]})
                  eq_refl eq_refl eq_refl eq_refl eq_refl) eq_refl).
Defined.

Lemma retry_carries_refreshed_token_witness :
  let host := rotating (answer 200 "{}") in
  let w := world_with (JObj old_bundle) in
  exists req2,
    fetches (snd (@qbRequest host "customer/42" no_options w)) =
      fetches w ++
      [@api_request host (@request_url host "customer/42") no_options (tokens w);
       @refresh_request host (tokens w); req2] /\
    req_url req2 = @request_url host "customer/42" /\
    req_method req2 = GET /\
    req_body req2 = None /\
    req_headers req2 !! "Authorization" = Some "Bearer a1".
Proof.
  exact (@retry_carries_refreshed_token (rotating (answer 200 "{}"))
           (world_with (JObj old_bundle)) "customer/42" no_options
           {| status := 401; text := "expired" |} {| status := 200; text := "TOKENS" |}
           rotated (JStr "a1")
           eq_refl eq_refl eq_refl eq_refl eq_refl eq_refl eq_refl eq_refl eq_refl
           eq_refl).
Defined.

Lemma request_defaults_and_overrides_witness :
  let options := {| method := None; body := JNum 0;
                    headers := Some {[ "Authorization" := "Basic abc" ]} |} in
  exists req,
    fetches (snd (@doFetch silent "u" options (world_with access_only))) = [req] /\
    req_method req = GET /\
    req_body req = None /\
    req_headers req !! "Authorization" = Some "Basic abc" /\
    req_headers req !! "Accept" = Some "application/json" /\
    req_headers req !! "Content-Type" = None.
Proof.
  intros options.
  destruct (@request_defaults_and_overrides silent (world_with access_only) "u" options)
    as (req & Hf & _ & Hm & Hb & Hcaller & _ & Haccept & Hct).
  exists req. split; [exact Hf|]. split; [exact Hm|]. split; [exact Hb|].
  split; [apply Hcaller; reflexivity|]. split; [apply Haccept; reflexivity|].
  apply Hct. reflexivity.
Defined.

Lemma qbQuery_request_witness :
  exists req later,
    fetches (snd (@qbQuery silent "SELECT * FROM Customer" (world_with access_only)))
      = req :: later /\
    req_url req =
      "https://sandbox-quickbooks.api.intuit.com/v3/company/4620816365/query?query=SELECT * FROM Customer&minorversion=75" /\
    req_method req = GET /\
    req_body req = None.
Proof.
  exact (@qbQuery_request silent (world_with access_only) "SELECT * FROM Customer"
           eq_refl).
Defined.

Lemma display_name_lookup_witness :
  let w := world_with access_only in
  fst (@get_customer_by_display_name two_rows "Acme" w)
    = Ok (@text_result two_rows record_42).
Proof.
  destruct (@display_name_lookup two_rows (world_with access_only) "Acme"
              {| status := 200; text := "ROWS" |}
              (JObj {[ "QueryResponse" :=
                         JObj {[ "Customer" := JArr [record_42; JObj ∅] ]} ]})
              eq_refl eq_refl eq_refl eq_refl eq_refl) as [Hfirst _].
  cbv zeta. now rewrite (Hfirst record_42 [JObj ∅] eq_refl eq_refl).
Defined.

Lemma mappers_emit_known_fields_witness :
  mapCustomerInputToQBO new_customer !! "DisplayName" = Some (JStr "Acme") /\
  In "DisplayName" customer_output_fields /\
  mapCustomerInputToQBO new_customer !! "Id" = None.
Proof.
  split; [reflexivity|]. split; [|reflexivity].
  apply (proj1 (mappers_emit_known_fields new_customer "DisplayName")).
  exists (JStr "Acme"). reflexivity.
Defined.

Lemma create_customer_posts_once_witness :
  let w := world_with access_only in
  exists req w',
    @create_customer creating new_customer w =
      (Ok (@text_result creating record_42), w') /\
    fetches w' = fetches w ++ [req] /\
    req_method req = POST /\
    req_body req = Some "{DisplayName:Acme}" /\
    req_headers req !! "Content-Type" = Some "application/json".
Proof.
  exact (@create_customer_posts_once creating (world_with access_only) new_customer
           {| status := 200; text := "CREATED" |} (JObj {[ "Customer" := record_42 ]})
           eq_refl eq_refl eq_refl eq_refl eq_refl).
Defined.

Lemma sparse_flag_in_body_witness :
  let full : obj := <["sparse" := JBool false]> rename_customer_42 in
  update_body record_42 (sparse_flag full)
    (mapCustomerInputToQBO (customer_patch full)) !! "sparse" = None /\
  update_body record_42 (sparse_flag rename_customer_42)
    (mapCustomerInputToQBO (customer_patch rename_customer_42)) !! "sparse"
    = Some (JBool true).
Proof.
  intros full.
  pose proof (sparse_flag_in_body record_42 full) as Hfull.
  pose proof (sparse_flag_in_body record_42 rename_customer_42) as Hdefault.
  cbv zeta in Hfull, Hdefault.
  destruct Hfull as [_ Hfull]. destruct Hdefault as [Hdefault _].
  split.
  - exact (proj1 (Hfull eq_refl)).
  - exact (proj1 (Hdefault (or_introl eq_refl))).
Defined.
